(** * fractal-server: workflow/dataset compatibility and the per-job logger

    A shallow embedding of [fractal_server/app/runner/_common.py]:

    - [auto_output_dataset] and [validate_workflow_compatibility], the
      compatibility resolver, as pure functions into a result type that
      records which Python exception was raised;
    - [set_job_logger] and [close_job_logger], the per-job logger
      lifecycle, as computations in a state-and-exception monad over a
      model of the process-wide [logging] registry, the heap of handler
      objects with their streams, and the files. *)

From stdpp Require Import gmap strings list fin_maps.
From Stdlib Require Import ZArith.

(** ** Python values, exceptions and results *)

(** The exceptions raised by the embedded code, with their arguments.
    [ValueError None] is a bare [raise ValueError]; an [OSError], of the
    class itself or of one of its subclasses, carries its [filename]
    attribute, [None] when the failing call names no file. *)
Inductive exn : Type :=
| TypeError (msg : string)
| ValueError (args : option string)
| NotImplementedError
| OSError (filename : option string).

Inductive result (A : Type) : Type :=
| Return (a : A)
| Raise (e : exn).
Arguments Return {A} a.
Arguments Raise {A} e.

(** What [validate_workflow_compatibility] can hand back: Python does
    not distinguish statically between a [str] and a [list] of [str]. *)
Inductive pyval : Type :=
| PyStr (s : string)
| PyList (l : list string).

(** ** Data model *)

(** Modelled from the spec: the [Dataset] model class ([..models]) is
    not part of the sources at hand; the resolver reads its [name],
    [type], [read_only] and [paths] attributes. *)
Module Dataset.
Record t : Type := Build
  { name : string;
    type : string;
    read_only : bool;
    paths : list string }.
End Dataset.

(** Modelled from the spec: the [Task] model class ([..models.task]),
    of which the resolver reads [name] and [input_type]. *)
Module Task.
Record t : Type := Build
  { name : string;
    input_type : string }.
End Task.

(** ** Compatibility resolver *)

(** [auto_output_dataset]: the coroutine has no suspension point, so it
    is a function of its arguments; [project] and [workflow] are not
    inspected. *)
Definition auto_output_dataset {Project : Type}
    (project : Project) (input_dataset : Dataset.t) (workflow : Task.t)
    (overwrite_input : bool) : result Dataset.t :=
  if overwrite_input && negb (Dataset.read_only input_dataset) then
    let input_paths := Dataset.paths input_dataset in
    if negb (length input_paths =? 1)%nat then Raise (ValueError None)
    else Return input_dataset
  else Raise NotImplementedError.

(** The message built by the f-string of the [TypeError]. *)
Definition incompatible_types_msg
    (workflow : Task.t) (input_dataset : Dataset.t) : string :=
  "Incompatible types `" +:+ Task.input_type workflow +:+ "` of workflow "
  +:+ "`" +:+ Task.name workflow +:+ "` and `"
  +:+ Dataset.type input_dataset +:+ "` of dataset "
  +:+ "`" +:+ Dataset.name input_dataset +:+ "`".

(** Python's [input_paths[0]]; the callers below only reach it on a
    list of length one. *)
Definition first_path (l : list string) : string := default "" (head l).

(** [validate_workflow_compatibility].  [output_dataset] is
    [Optional[Dataset]]: [None] is falsy and a model instance is truthy,
    so [not output_dataset] is the test for [None]. *)
Definition validate_workflow_compatibility
    (input_dataset : Dataset.t) (workflow : Task.t)
    (output_dataset : option Dataset.t) : result pyval :=
  if negb (String.eqb (Task.input_type workflow) "Any")
     && negb (String.eqb (Task.input_type workflow)
                         (Dataset.type input_dataset))
  then Raise (TypeError (incompatible_types_msg workflow input_dataset))
  else
    match output_dataset with
    | None =>
        if Dataset.read_only input_dataset then
          Raise (ValueError (Some "Input dataset is read-only"))
        else
          let input_paths := Dataset.paths input_dataset in
          if negb (length input_paths =? 1)%nat then
            Raise (ValueError (Some
              "Cannot determine output path: multiple input paths to overwrite"))
          else Return (PyStr (first_path input_paths))
    | Some output_dataset =>
        let output_path := Dataset.paths output_dataset in
        if negb (length output_path =? 1)%nat then
          Raise (ValueError (Some
            "Cannot determine output path: Multiple paths in dataset."))
        else Return (PyList output_path)
    end.

(** ** Error kinds

    The names under which the specification refers to the exceptions
    above: [TypeError] is a type mismatch, the [ValueError] with the
    read-only message is a read-only input, every other [ValueError]
    comes from a path-count test, [NotImplementedError] is what the
    narrower entry point raises when it does not take the overwrite
    branch, and [OSError] is a log file that cannot be opened. *)
Inductive ErrorKind : Type :=
| TypeMismatch
| ReadOnlyInput
| AmbiguousOutputPath
| OverwriteNotRequested
| IOError.

Definition error_kind (e : exn) : ErrorKind :=
  match e with
  | TypeError _ => TypeMismatch
  | ValueError (Some msg) =>
      if String.eqb msg "Input dataset is read-only" then ReadOnlyInput
      else AmbiguousOutputPath
  | ValueError None => AmbiguousOutputPath
  | NotImplementedError => OverwriteNotRequested
  | OSError _ => IOError
  end.

Definition fails_with {A : Type} (r : result A) (k : ErrorKind) : Prop :=
  exists e, r = Raise e /\ error_kind e = k.

(** The type-compatibility test passes. *)
Definition type_compatible (workflow : Task.t) (input_dataset : Dataset.t)
  : Prop :=
  Task.input_type workflow = "Any"
  \/ Task.input_type workflow = Dataset.type input_dataset.

(** ** Paths

    [posixpath.abspath], by which [logging.FileHandler] makes its file
    name absolute.  The current directory is an argument. *)
Module posixpath.

(** The separator [/]. *)
Definition sep : Ascii.ascii := Ascii.ascii_of_nat 47.

(** [path.split("/")]. *)
Fixpoint split (s : string) : list string :=
  match s with
  | EmptyString => [""]
  | String c s' =>
      if Ascii.eqb c sep then "" :: split s'
      else
        match split s' with
        | comp :: comps => String c comp :: comps
        | [] => [String c ""]
        end
  end.

(** ["/".join(comps)]. *)
Fixpoint join_comps (comps : list string) : string :=
  match comps with
  | [] => ""
  | comp :: rest =>
      match rest with
      | [] => comp
      | _ :: _ => comp +:+ "/" +:+ join_comps rest
      end
  end.

(** [path.startswith("/")]. *)
Definition isabs (path : string) : bool := String.prefix "/" path.

(** [a.endswith("/")]. *)
Definition ends_with_sep (a : string) : bool :=
  match String.get (String.length a - 1) a with
  | Some c => Ascii.eqb c sep
  | None => false
  end.

(** [posixpath.join(a, b)]. *)
Definition join (a b : string) : string :=
  if isabs b then b
  else if String.eqb a "" || ends_with_sep a then a +:+ b
  else a +:+ "/" +:+ b.

(** The number of leading slashes that [normpath] keeps: two when the
    path starts with exactly two, else one or none. *)
Definition initial_slashes (path : string) : nat :=
  if String.prefix "/" path then
    if String.prefix "//" path && negb (String.prefix "///" path) then 2
    else 1
  else 0.

(** One turn of the loop of [normpath] over the components. *)
Definition norm_step (slashes : nat) (new_comps : list string)
    (comp : string) : list string :=
  if String.eqb comp "" || String.eqb comp "." then new_comps
  else if negb (String.eqb comp "..")
          || (Nat.eqb slashes 0 && Nat.eqb (length new_comps) 0)
          || from_option (String.eqb "..") false (last new_comps)
  then new_comps ++ [comp]
  else removelast new_comps.

(** [posixpath.normpath(path)]. *)
Definition normpath (path : string) : string :=
  if String.eqb path "" then "."
  else
    let slashes := initial_slashes path in
    let comps := foldl (norm_step slashes) [] (split path) in
    let path' :=
      match slashes with
      | O => join_comps comps
      | 1 => "/" +:+ join_comps comps
      | _ => "//" +:+ join_comps comps
      end in
    if String.eqb path' "" then "." else path'.

(** [posixpath.abspath(path)], in the current directory [cwd]. *)
Definition abspath (cwd path : string) : string :=
  normpath (if isabs path then path else join cwd path).

End posixpath.

(** ** Opening files

    The validation of the mode string by [open], and the four ways of
    opening that it selects. *)
Module io.

Inductive OpenKind : Type := Creating | Reading | Writing | Appending.

(** [c in mode], for a one-character string [c]. *)
Definition has (c mode : string) : bool :=
  match String.index 0 c mode with
  | Some _ => true
  | None => false
  end.

(** Every character is one of [axrwb+t] and none occurs twice. *)
Definition mode_chars_ok (mode : string) : bool :=
  forallb (fun c => has (String c "") "axrwb+t")
          (String.list_ascii_of_string mode)
  && bool_decide (NoDup (String.list_ascii_of_string mode)).

Definition parse_mode (mode : string) : result OpenKind :=
  if negb (mode_chars_ok mode) then
    Raise (ValueError (Some ("invalid mode: '" +:+ mode +:+ "'")))
  else if has "t" mode && has "b" mode then
    Raise (ValueError (Some "can't have text and binary mode at once"))
  else
    match has "x" mode, has "r" mode, has "w" mode, has "a" mode with
    | true, false, false, false => Return Creating
    | false, true, false, false => Return Reading
    | false, false, true, false => Return Writing
    | false, false, false, true => Return Appending
    | false, false, false, false =>
        Raise (ValueError (Some
          "Must have exactly one of create/read/write/append mode and at most one plus"))
    | _, _, _, _ =>
        Raise (ValueError (Some
          "must have exactly one of create/read/write/append mode"))
    end.

End io.

(** ** The [logging] library

    A model of the part of CPython's [logging] module that the job
    logger drives.  A logger is named by the way it is reached: the
    root, a logger registered under a name, or a logger object that is
    in no registry.  Handlers are objects on a heap, so that one handler
    attached to two loggers is one object; so are the file objects that
    handlers have as their stream. *)
Module logging.

Definition NOTSET : Z := 0.
Definition DEBUG : Z := 10.
Definition INFO : Z := 20.
Definition WARNING : Z := 30.
Definition ERROR : Z := 40.
Definition CRITICAL : Z := 50.

Inductive Formatter : Type := MkFormatter (fmt : string).

(** A text file object: the path it was opened on, whether it has been
    closed, and the text written to it that has not reached the file
    yet. *)
Record Stream : Type := MkStream
  { s_path : string;
    s_closed : bool;
    pending : list string }.

(** A handler object.  [is_FileHandler] is the answer of
    [isinstance(h, logging.FileHandler)], for [FileHandler] itself and
    the classes of the library that inherit its [close]; [stream] is
    the attribute of that name, a reference to a file object, [None]
    once the handler is closed; [closed] is [_closed]. *)
Record Handler : Type := MkHandler
  { is_FileHandler : bool;
    baseFilename : string;
    mode : string;
    formatter : option Formatter;
    stream : option nat;
    closed : bool }.

Inductive LoggerRef : Type :=
| RootLogger
| NamedLogger (name : string)
| DetachedLogger (id : nat).

#[global] Instance LoggerRef_eq_dec : EqDecision LoggerRef.
Proof. solve_decision. Defined.

(** A logger object: its [name], [level] and [parent] attributes, its
    list of handlers (by reference) and the instance attribute
    [setLevel], present once something has been assigned to it; the
    attribute then shadows the method of the class. *)
Record Logger : Type := MkLogger
  { name : string;
    level : Z;
    parent : option LoggerRef;
    handlers : list nat;
    setLevel : option Z }.

(** An entry of [Logger.manager.loggerDict]: a logger, or a
    [PlaceHolder] with the loggers below it, in the order of its
    [loggerMap]. *)
Inductive Entry : Type :=
| LoggerEntry (l : Logger)
| PlaceHolder (loggerMap : list LoggerRef).

(** The state of the process as far as logging goes: the root logger,
    [Logger.manager.loggerDict], the logger objects outside the
    registry, the handler objects, the file objects, the content of the
    files that exist, the paths at which opening a file fails, the paths
    at which writing fails, and the current directory. *)
Record State : Type := MkState
  { root : Logger;
    loggerDict : gmap string Entry;
    detached : gmap nat Logger;
    heap : gmap nat Handler;
    streams : gmap nat Stream;
    files : gmap string (list string);
    unopenable : gset string;
    unwritable : gset string;
    cwd : string }.

Definition set_root (f : Logger -> Logger) (st : State) : State :=
  MkState (f (root st)) (loggerDict st) (detached st) (heap st) (streams st)
          (files st) (unopenable st) (unwritable st) (cwd st).
Definition set_loggerDict
    (f : gmap string Entry -> gmap string Entry) (st : State) : State :=
  MkState (root st) (f (loggerDict st)) (detached st) (heap st) (streams st)
          (files st) (unopenable st) (unwritable st) (cwd st).
Definition set_detached
    (f : gmap nat Logger -> gmap nat Logger) (st : State) : State :=
  MkState (root st) (loggerDict st) (f (detached st)) (heap st) (streams st)
          (files st) (unopenable st) (unwritable st) (cwd st).
Definition set_heap
    (f : gmap nat Handler -> gmap nat Handler) (st : State) : State :=
  MkState (root st) (loggerDict st) (detached st) (f (heap st)) (streams st)
          (files st) (unopenable st) (unwritable st) (cwd st).
Definition set_streams
    (f : gmap nat Stream -> gmap nat Stream) (st : State) : State :=
  MkState (root st) (loggerDict st) (detached st) (heap st) (f (streams st))
          (files st) (unopenable st) (unwritable st) (cwd st).
Definition set_files
    (f : gmap string (list string) -> gmap string (list string))
    (st : State) : State :=
  MkState (root st) (loggerDict st) (detached st) (heap st) (streams st)
          (f (files st)) (unopenable st) (unwritable st) (cwd st).

(** Computations that read and write the state and may raise. *)
Definition M (A : Type) : Type := State -> State * result A.

Definition ret {A : Type} (a : A) : M A := fun st => (st, Return a).
Definition raise {A : Type} (e : exn) : M A := fun st => (st, Raise e).
Definition bind {A B : Type} (c : M A) (k : A -> M B) : M B :=
  fun st =>
    match c st with
    | (st', Return a) => k a st'
    | (st', Raise e) => (st', Raise e)
    end.
Definition get : M State := fun st => (st, Return st).
Definition modify (f : State -> State) : M unit :=
  fun st => (f st, Return tt).

Notation "x <- c ;; k" := (bind c (fun x => k))
  (at level 20, c at level 99, k at level 200, only parsing).
Notation "c ;; k" := (bind c (fun _ => k))
  (at level 100, k at level 200, only parsing, right associativity).

(** [for x in l: body x]; an exception raised by the body ends the
    loop. *)
Fixpoint for_ {A : Type} (l : list A) (body : A -> M unit) : M unit :=
  match l with
  | [] => ret tt
  | x :: l' => body x ;; for_ l' body
  end.

Definition lookup_logger (st : State) (r : LoggerRef) : option Logger :=
  match r with
  | RootLogger => Some (root st)
  | NamedLogger n =>
      match loggerDict st !! n with
      | Some (LoggerEntry l) => Some l
      | _ => None
      end
  | DetachedLogger i => detached st !! i
  end.

Definition update_entry (f : Logger -> Logger) (e : Entry) : Entry :=
  match e with
  | LoggerEntry l => LoggerEntry (f l)
  | PlaceHolder lm => PlaceHolder lm
  end.

Definition update_logger (r : LoggerRef) (f : Logger -> Logger)
  : State -> State :=
  match r with
  | RootLogger => set_root f
  | NamedLogger n => set_loggerDict (alter (update_entry f) n)
  | DetachedLogger i => set_detached (alter f i)
  end.

(** [logger.handlers], read in a state. *)
Definition handlers_of (st : State) (r : LoggerRef) : list nat :=
  from_option handlers [] (lookup_logger st r).

(** The logger that [logging.getLogger(logger_name)] is about: the
    empty name and the root's own name denote the root logger. *)
Definition logger_ref (st : State) (logger_name : string) : LoggerRef :=
  if String.eqb logger_name ""
     || String.eqb logger_name (name (root st))
  then RootLogger
  else NamedLogger logger_name.

(** [Logger(n)]: level [NOTSET], no parent yet, no handler. *)
Definition new_logger (n : string) : Logger := MkLogger n NOTSET None [] None.

(** [logger.parent = p]. *)
Definition set_parent (p : option LoggerRef) (l : Logger) : Logger :=
  MkLogger (name l) (level l) p (handlers l) (setLevel l).

(** [PlaceHolder.append]. *)
Definition placeholder_append (c : LoggerRef) (lm : list LoggerRef)
  : list LoggerRef :=
  if bool_decide (c ∈ lm) then lm else lm ++ [c].

(** The character [.] that separates the components of a name. *)
Definition dot : Ascii.ascii := Ascii.ascii_of_nat 46.

(** [s.rfind(".", 0, hi)], for [hi] within the string. *)
Fixpoint rfind_dot (s : string) (hi : nat) : option nat :=
  match hi with
  | O => None
  | S j =>
      match String.get j s with
      | Some c => if Ascii.eqb c dot then Some j else rfind_dot s j
      | None => rfind_dot s j
      end
  end.

(** The prefixes of a dotted name at which [Manager._fixupParents]
    looks for a parent, nearest first. *)
Fixpoint ancestors_from (fuel : nat) (s : string) (i : option nat)
  : list string :=
  match fuel, i with
  | S fuel', Some (S i') =>
      String.substring 0 (S i') s
        :: ancestors_from fuel' s (rfind_dot s i')
  | _, _ => []
  end.

Definition ancestors (name : string) : list string :=
  ancestors_from (String.length name) name
                 (rfind_dot name (String.length name)).

(** The loop of [Manager._fixupParents]: along the prefixes, a missing
    entry becomes a place holder for [alogger], a place holder takes
    [alogger] in, and the first logger met ends the loop and is the
    parent; the root is the parent if there is none. *)
Fixpoint fixupParents_loop (alogger : LoggerRef) (prefixes : list string)
    (st : State) : State * LoggerRef :=
  match prefixes with
  | [] => (st, RootLogger)
  | substr :: rest =>
      match loggerDict st !! substr with
      | None =>
          fixupParents_loop alogger rest
            (set_loggerDict (insert substr (PlaceHolder [alogger])) st)
      | Some (LoggerEntry _) => (st, NamedLogger substr)
      | Some (PlaceHolder lm) =>
          fixupParents_loop alogger rest
            (set_loggerDict
               (insert substr (PlaceHolder (placeholder_append alogger lm)))
               st)
      end
  end.

(** [Manager._fixupParents(alogger)], for the logger registered under
    [n]. *)
Definition fixupParents (n : string) (st : State) : State :=
  let '(st', rv) := fixupParents_loop (NamedLogger n) (ancestors n) st in
  update_logger (NamedLogger n) (set_parent (Some rv)) st'.

(** One turn of the loop of [Manager._fixupChildren]: a child [c] of
    the place holder whose parent's name does not start with [n] gets
    the new logger as its parent, and the new logger gets the child's
    old parent.  A child without a live parent is passed over (CPython
    raises there; the registry never holds one, see
    [registry_linked]). *)
Definition fixupChildren_step (n : string) (st : State) (c : LoggerRef)
  : State :=
  match lookup_logger st c with
  | Some lc =>
      match parent lc with
      | Some p =>
          match lookup_logger st p with
          | Some lp =>
              if negb (String.eqb
                         (String.substring 0 (String.length n) (name lp)) n)
              then
                update_logger c (set_parent (Some (NamedLogger n)))
                  (update_logger (NamedLogger n) (set_parent (Some p)) st)
              else st
          | None => st
          end
      | None => st
      end
  | None => st
  end.

(** [Manager._fixupChildren(ph, alogger)]. *)
Definition fixupChildren (ph : list LoggerRef) (n : string) (st : State)
  : State :=
  foldl (fixupChildren_step n) st ph.

(** [logging.getLogger(logger_name)]: the root, or the registered
    logger of that name, created and linked into the hierarchy on first
    use. *)
Definition getLogger (logger_name : string) : M LoggerRef :=
  fun st =>
    match logger_ref st logger_name with
    | NamedLogger n =>
        match loggerDict st !! n with
        | Some (LoggerEntry _) => (st, Return (NamedLogger n))
        | Some (PlaceHolder ph) =>
            (fixupParents n
               (fixupChildren ph n
                  (set_loggerDict (insert n (LoggerEntry (new_logger n)))
                     st)),
             Return (NamedLogger n))
        | None =>
            (fixupParents n
               (set_loggerDict (insert n (LoggerEntry (new_logger n))) st),
             Return (NamedLogger n))
        end
    | r => (st, Return r)
    end.

(** [logger.setLevel = value]: an attribute assignment on the
    instance, which leaves [logger.level] alone. *)
Definition assign_setLevel (r : LoggerRef) (value : Z) : M unit :=
  modify (update_logger r
    (fun l => MkLogger (name l) (level l) (parent l) (handlers l)
                       (Some value))).

(** The files after a file has been opened for appending at [path]. *)
Definition touch (path : string) (fs : gmap string (list string))
  : gmap string (list string) :=
  match fs !! path with
  | Some _ => fs
  | None => <[path := []]> fs
  end.

(** A new file object on [path], open and with nothing pending. *)
Definition new_stream (path : string) : M nat :=
  fun st =>
    let sid := fresh (dom (streams st)) in
    (set_streams (insert sid (MkStream path false [])) st, Return sid).

(** [open(path, mode)]: the mode is validated first; then the open
    fails where the path cannot be opened, where it exists and is to be
    created, or where it does not exist and is to be read; writing
    truncates the file, appending keeps its content, and both create it
    if it does not exist. *)
Definition builtin_open (path mode : string) : M nat :=
  fun st =>
    match io.parse_mode mode with
    | Raise e => (st, Raise e)
    | Return kind =>
        if bool_decide (path ∈ unopenable st) then
          (st, Raise (OSError (Some path)))
        else
          match kind, files st !! path with
          | io.Creating, Some _ => (st, Raise (OSError (Some path)))
          | io.Creating, None =>
              new_stream path (set_files (insert path []) st)
          | io.Reading, Some _ => new_stream path st
          | io.Reading, None => (st, Raise (OSError (Some path)))
          | io.Writing, _ => new_stream path (set_files (insert path []) st)
          | io.Appending, _ => new_stream path (set_files (touch path) st)
          end
    end.

(** [logging.FileHandler(filename, mode)]: the name is made absolute,
    the file is opened at once (no [delay]), and only then is the
    handler object allocated. *)
Definition FileHandler (filename : string) (mode : string) : M nat :=
  st <- get ;;
  let base := posixpath.abspath (cwd st) filename in
  s <- builtin_open base mode ;;
  st <- get ;;
  let h := fresh (dom (heap st)) in
  modify (set_heap (insert h (MkHandler true base mode None (Some s) false))) ;;
  ret h.

(** [handler.setFormatter(fmt)]. *)
Definition setFormatter (h : nat) (fmt : option Formatter) : M unit :=
  modify (set_heap (alter
    (fun hd => MkHandler (is_FileHandler hd) (baseFilename hd) (mode hd)
                         fmt (stream hd) (closed hd)) h)).

(** [logger.addHandler(hdlr)]: appended unless already in the list. *)
Definition addHandler (r : LoggerRef) (h : nat) : M unit :=
  modify (update_logger r (fun l =>
    if bool_decide (h ∈ handlers l) then l
    else MkLogger (name l) (level l) (parent l) (handlers l ++ [h])
                  (setLevel l))).

(** [isinstance(handle, logging.FileHandler)]. *)
Definition isinstance_FileHandler (st : State) (h : nat) : bool :=
  from_option is_FileHandler false (heap st !! h).

(** The exception of [s.flush()], if it raises: [ValueError] on a
    closed file, [OSError] when there is text to write and the write
    fails. *)
Definition flush_error (st : State) (s : Stream) : option exn :=
  if s_closed s then
    Some (ValueError (Some "I/O operation on closed file."))
  else if bool_decide (pending s = []) then None
  else if bool_decide (s_path s ∈ unwritable st) then Some (OSError None)
  else None.

(** The files after [s.flush()]: text that can be written goes to the
    end of the file. *)
Definition flush_files (st : State) (s : Stream)
  : gmap string (list string) :=
  match flush_error st s with
  | Some _ => files st
  | None => alter (fun content => content ++ pending s) (s_path s) (files st)
  end.

(** What [FileHandler.close] leaves of a handler object. *)
Definition closed_handler (hd : Handler) : Handler :=
  MkHandler (is_FileHandler hd) (baseFilename hd) (mode hd) (formatter hd)
            None true.

(** [s.close()]: the file object is closed; what was still pending
    has been written or is lost. *)
Definition close_stream (s : Stream) : Stream := MkStream (s_path s) true [].

(** The exception with which flushing the file object [sid] raises. *)
Definition stream_flush_error (st : State) (sid : nat) : option exn :=
  match streams st !! sid with
  | Some s => flush_error st s
  | None => None
  end.

(** The files after flushing the file object [sid]. *)
Definition stream_flush_files (st : State) (sid : nat)
  : gmap string (list string) :=
  match streams st !! sid with
  | Some s => flush_files st s
  | None => files st
  end.

(** [FileHandler.close()]: if the handler has a stream, the stream is
    flushed, then, also when the flush raised, detached from the
    handler and closed; in every case the handler is marked closed.
    The exception of the flush comes out of the call. *)
Definition FileHandler_close (h : nat) : M unit :=
  fun st =>
    match heap st !! h with
    | Some hd =>
        match stream hd with
        | Some sid =>
            (set_heap (insert h (closed_handler hd))
               (set_streams (alter close_stream sid)
                  (set_files (fun _ => stream_flush_files st sid) st)),
             match stream_flush_error st sid with
             | Some e => Raise e
             | None => Return tt
             end)
        | None => (set_heap (insert h (closed_handler hd)) st, Return tt)
        end
    | None => (st, Return tt)
    end.

(** [logger.getEffectiveLevel()]: the first level that is set, from
    the logger up along the [parent] links.  The links of a registry
    end at the root; [fuel] bounds the walk. *)
Fixpoint effective_level_from (fuel : nat) (st : State)
    (r : option LoggerRef) : Z :=
  match fuel, r with
  | S fuel', Some r' =>
      match lookup_logger st r' with
      | Some l =>
          if (level l =? NOTSET)%Z then effective_level_from fuel' st (parent l)
          else level l
      | None => NOTSET
      end
  | _, _ => NOTSET
  end.

Definition getEffectiveLevel (st : State) (r : LoggerRef) : Z :=
  effective_level_from (size (loggerDict st) + size (detached st) + 2) st
                       (Some r).

(** [logger.isEnabledFor(lvl)], for a logger that is not disabled and
    with nothing disabled manager-wide. *)
Definition isEnabledFor (st : State) (r : LoggerRef) (lvl : Z) : bool :=
  (getEffectiveLevel st r <=? lvl)%Z.

(** The state of an interpreter that has imported [logging] and done
    nothing else, started in the directory [/]: a root logger at
    [WARNING], no other logger, no handler, no file object. *)
Definition initial (fs : gmap string (list string)) (bad : gset string)
  : State :=
  MkState (MkLogger "root" WARNING None [] None) ∅ ∅ ∅ ∅ fs bad ∅ "/".

End logging.

(** ** Job logger lifecycle *)

Import logging.

(** [set_job_logger]; the [Path] is taken as the string it denotes, and
    [level] is the integer the caller passes (the default of the
    parameter is the function [logging.warning], not a level). *)
Definition set_job_logger (logger_name : string) (log_file_path : string)
    (level : Z) (formatter : option Formatter) : M LoggerRef :=
  logger <- getLogger logger_name ;;
  assign_setLevel logger level ;;
  file_handler <- FileHandler log_file_path "a" ;;
  setFormatter file_handler formatter ;;
  addHandler logger file_handler ;;
  ret logger.

(** [close_job_logger]. *)
Definition close_job_logger (logger : LoggerRef) : M unit :=
  st <- get ;;
  for_ (handlers_of st logger) (fun handle =>
    st <- get ;;
    if isinstance_FileHandler st handle then FileHandler_close handle
    else ret tt).

(** ** Auxiliary notions for the logger proofs *)

(** The exception with which closing the handler [h] would raise: that
    of flushing its stream, for a file handler that has one. *)
Definition flush_failure (st : State) (h : nat) : option exn :=
  match heap st !! h with
  | Some hd =>
      if is_FileHandler hd then
        match stream hd with
        | Some sid => stream_flush_error st sid
        | None => None
        end
      else None
  | None => None
  end.

(** The state after one iteration of the loop of [close_job_logger]. *)
Definition close_step (h : nat) (st : State) : State :=
  match heap st !! h with
  | Some hd =>
      if is_FileHandler hd then
        match stream hd with
        | Some sid =>
            set_heap (insert h (closed_handler hd))
              (set_streams (alter close_stream sid)
                 (set_files (fun _ => stream_flush_files st sid) st))
        | None => set_heap (insert h (closed_handler hd)) st
        end
      else st
  | None => st
  end.

(** The loop of [close_job_logger] over the handlers [l], in the state
    [st]. *)
Definition close_all (l : list nat) (st : State) : State * result unit :=
  for_ l (fun handle =>
    st' <- get ;;
    if isinstance_FileHandler st' handle then FileHandler_close handle
    else ret tt) st.

(** A handler on which the loop of [close_job_logger] has nothing left
    to do: a file handler is closed and has no stream. *)
Definition settled (st : State) (h : nat) : Prop :=
  forall hd, heap st !! h = Some hd -> is_FileHandler hd = true ->
             stream hd = None /\ closed hd = true.

(** Every handler a logger refers to is an object of the heap: true of
    the initial state and kept by every operation, since references
    cannot dangle in Python. *)
Definition handlers_allocated (st : State) : Prop :=
  forall (r : LoggerRef) (h : nat),
    h ∈ handlers_of st r -> is_Some (heap st !! h).

(** A logger listed in a place holder is a live logger with a live
    parent. *)
Definition linked_child (st : State) (c : LoggerRef) : bool :=
  match lookup_logger st c with
  | Some lc =>
      match parent lc with
      | Some p =>
          match lookup_logger st p with
          | Some _ => true
          | None => false
          end
      | None => false
      end
  | None => false
  end.

(** The registry is linked: every place holder lists linked loggers
    only.  The manager keeps its registry so: [_fixupParents] puts a
    logger in a place holder as it gives the logger its parent. *)
Definition registry_linked (st : State) : Prop :=
  forallb (fun entry =>
             match snd entry with
             | PlaceHolder lm => forallb (linked_child st) lm
             | LoggerEntry _ => true
             end)
          (map_to_list (loggerDict st)) = true.

(** The attributes of a logger other than its parent. *)
Definition attrs (l : Logger) : string * Z * list nat * option Z :=
  (name l, level l, handlers l, setLevel l).

Definition view (st : State) (r : LoggerRef)
  : option (string * Z * list nat * option Z) :=
  attrs <$> lookup_logger st r.

(** What the logger operations leave alone: the handler objects, the
    file objects, the files, the environment and the name of the
    root. *)
Definition same_env (st st' : State) : Prop :=
  heap st' = heap st /\ streams st' = streams st /\ files st' = files st
  /\ unopenable st' = unopenable st /\ unwritable st' = unwritable st
  /\ cwd st' = cwd st /\ name (root st') = name (root st).

(** The logger after [logger.setLevel = value]. *)
Definition with_setLevel (value : Z) (l : Logger) : Logger :=
  MkLogger (name l) (level l) (parent l) (handlers l) (Some value).

(** The logger after [logger.addHandler(h)]. *)
Definition with_handler (h : nat) (l : Logger) : Logger :=
  if bool_decide (h ∈ handlers l) then l
  else MkLogger (name l) (level l) (parent l) (handlers l ++ [h])
                (setLevel l).

(** The handler that [set_job_logger] builds for the absolute path
    [base]: a file handler in append mode on the file object [sid]. *)
Definition job_handler (base : string) (fmt : option Formatter) (sid : nat)
  : Handler :=
  MkHandler true base "a" fmt (Some sid) false.

(** The file object of a file handler. *)
Definition stream_of (st : State) (h : nat) : option nat :=
  match heap st !! h with
  | Some hd => if is_FileHandler hd then stream hd else None
  | None => None
  end.

(** No two handlers of the list have the same file object. *)
Definition streams_private (st : State) (l : list nat) : Prop :=
  forall h h' sid,
    h ∈ l -> h' ∈ l -> h <> h' ->
    stream_of st h = Some sid -> stream_of st h' <> Some sid.


(** The state in which [set_job_logger] raises, when the file does not
    open: the logger is registered and the attribute assigned. *)
Definition refused (logger_name : string) (lvl : Z) (st : State) : State :=
  update_logger (logger_ref st logger_name) (with_setLevel lvl)
    (fst (getLogger logger_name st)).

(** The state in which [set_job_logger] returns, when the file opens. *)
Definition acquired (logger_name path : string) (lvl : Z)
    (fmt : option Formatter) (st : State) : State :=
  let h := fresh (dom (heap st)) in
  let sid := fresh (dom (streams st)) in
  let base := posixpath.abspath (cwd st) path in
  update_logger (logger_ref st logger_name) (with_handler h)
    (set_heap (insert h (job_handler base fmt sid))
      (set_streams (insert sid (MkStream base false []))
        (set_files (touch base) (refused logger_name lvl st)))).

(** ** Sample inputs *)

(** A process that has acquired the logger of job 42 once. *)
Definition job_state : State :=
  fst (set_job_logger "job-42" "/tmp/job-42.log" INFO None (initial ∅ ∅)).

(** A process that finds the log file of job 42 with one record. *)
Definition logged_state : State :=
  initial {["/tmp/job-42.log" := ["first record"]]} ∅.

(** A process whose root logger writes to the console only. *)
Definition console_state : State :=
  MkState (MkLogger "root" WARNING None [0] None) ∅ ∅
          {[0 := MkHandler false "" "" None None false]} ∅ ∅ ∅ ∅ "/".


(** A file handler on the full device [/dev/full], whose file object
    still holds a record that could not be written, and one on the log
    file of job 42. *)
Definition full_handler (sid : nat) : Handler :=
  MkHandler true "/dev/full" "a" None (Some sid) false.
Definition full_stream : Stream :=
  MkStream "/dev/full" false ["one record"].
Definition log_handler : Handler :=
  job_handler "/tmp/job-42.log" None 1.
Definition log_stream : Stream := MkStream "/tmp/job-42.log" false [].

(** A process whose logger of job 42 has both handlers, the one on the
    full device first. *)
Definition stuck_state : State :=
  MkState (MkLogger "root" WARNING None [] None)
          {["job-42" :=
              LoggerEntry
                (MkLogger "job-42" NOTSET (Some RootLogger) [0; 1] None)]}
          ∅
          {[0 := full_handler 0; 1 := log_handler]}
          {[0 := full_stream; 1 := log_stream]}
          {["/tmp/job-42.log" := []]} ∅ {["/dev/full"]} "/".

(** The same with two handlers on the full device. *)
Definition twice_stuck_state : State :=
  MkState (MkLogger "root" WARNING None [] None)
          {["job-42" :=
              LoggerEntry
                (MkLogger "job-42" NOTSET (Some RootLogger) [0; 1] None)]}
          ∅
          {[0 := full_handler 0; 1 := full_handler 1]}
          {[0 := full_stream; 1 := full_stream]}
          ∅ ∅ {["/dev/full"]} "/".

(** Datasets and workflows of the scenarios. *)
Definition zarr_dataset : Dataset.t :=
  Dataset.Build "dataset" "zarr" false ["/data/a"].
Definition png_read_only_dataset : Dataset.t :=
  Dataset.Build "dataset" "png" true ["/data/a"].
Definition png_dataset : Dataset.t :=
  Dataset.Build "dataset" "png" false ["/data/a"].
Definition out_dataset : Dataset.t :=
  Dataset.Build "out" "zarr" false ["/out/a"].
Definition out_two_paths : Dataset.t :=
  Dataset.Build "out" "zarr" false ["/out/a"; "/out/b"].
Definition empty_dataset : Dataset.t :=
  Dataset.Build "dataset" "zarr" false [].
Definition out_read_only : Dataset.t :=
  Dataset.Build "archive" "png" true ["/out/a"].
Definition any_workflow : Task.t := Task.Build "workflow" "Any".
Definition zarr_workflow : Task.t := Task.Build "workflow" "zarr".

(** * Properties of the compatibility resolver *)

Section Resolver.

Implicit Types (input_dataset : Dataset.t) (workflow : Task.t).
Implicit Types (output_dataset : option Dataset.t).

(** The guard of the [TypeError] is false exactly when the workflow
    takes any type or the types agree. *)
Lemma type_guard_compatible workflow input_dataset :
  type_compatible workflow input_dataset ->
  negb (String.eqb (Task.input_type workflow) "Any")
  && negb (String.eqb (Task.input_type workflow)
                      (Dataset.type input_dataset)) = false.
Proof.
  intros [H | H]; rewrite H.
  - reflexivity.
  - rewrite String.eqb_refl, andb_false_r. reflexivity.
Qed.

Lemma type_guard_mismatch workflow input_dataset :
  Task.input_type workflow <> "Any" ->
  Task.input_type workflow <> Dataset.type input_dataset ->
  negb (String.eqb (Task.input_type workflow) "Any")
  && negb (String.eqb (Task.input_type workflow)
                      (Dataset.type input_dataset)) = true.
Proof.
  intros H1 H2.
  apply String.eqb_neq in H1. apply String.eqb_neq in H2.
  rewrite H1, H2. reflexivity.
Qed.

(** With compatible types and an output dataset of one path, the value
    returned is the list [output_dataset.paths]. *)
Lemma validate_output_single input_dataset workflow out p :
  type_compatible workflow input_dataset ->
  Dataset.paths out = [p] ->
  validate_workflow_compatibility input_dataset workflow (Some out)
  = Return (PyList [p]).
Proof.
  intros Hc Hp. unfold validate_workflow_compatibility.
  rewrite (type_guard_compatible _ _ Hc), Hp. reflexivity.
Qed.

(** With a type mismatch the result is the [TypeError], whatever the
    rest of the arguments. *)
Lemma validate_mismatch input_dataset workflow output_dataset :
  Task.input_type workflow <> "Any" ->
  Task.input_type workflow <> Dataset.type input_dataset ->
  validate_workflow_compatibility input_dataset workflow output_dataset
  = Raise (TypeError (incompatible_types_msg workflow input_dataset)).
Proof.
  intros H1 H2. unfold validate_workflow_compatibility.
  rewrite (type_guard_mismatch _ _ H1 H2). reflexivity.
Qed.

(** A result that fails has one kind. *)
Lemma fails_with_Raise {A : Type} (e : exn) (k : ErrorKind) :
  fails_with (@Raise A e) k <-> error_kind e = k.
Proof.
  unfold fails_with. split.
  - intros (e' & He & Hk). congruence.
  - intros Hk. exists e. auto.
Qed.

Lemma fails_with_Return {A : Type} (a : A) (k : ErrorKind) :
  ~ fails_with (Return a) k.
Proof. intros (e & He & _). discriminate. Qed.

End Resolver.

(** Scenarios 1 to 5 of the specification. *)
Example scenario_1 :
  validate_workflow_compatibility zarr_dataset any_workflow None
  = Return (PyStr "/data/a").
Proof. reflexivity. Qed.

Example scenario_2 :
  validate_workflow_compatibility png_dataset zarr_workflow None
  = Raise (TypeError
      "Incompatible types `zarr` of workflow `workflow` and `png` of dataset `dataset`").
Proof. reflexivity. Qed.

Example scenario_3 :
  validate_workflow_compatibility png_read_only_dataset any_workflow None
  = Raise (ValueError (Some "Input dataset is read-only")).
Proof. reflexivity. Qed.

Example scenario_4 :
  validate_workflow_compatibility
    (Dataset.Build "dataset" "zarr" false []) any_workflow None
  = Raise (ValueError (Some
      "Cannot determine output path: multiple input paths to overwrite")).
Proof. reflexivity. Qed.

Example scenario_5 :
  validate_workflow_compatibility zarr_dataset any_workflow
    (Some out_two_paths)
  = Raise (ValueError (Some
      "Cannot determine output path: Multiple paths in dataset.")).
Proof. reflexivity. Qed.

(** ** C1: an output dataset with one path *)

(** C1. With workflow input type "Any" and a supplied output dataset
    whose only path is "/out/a", [validate_workflow_compatibility]
    returns the list [["/out/a"]], that is [output_dataset.paths]
    itself, and not the string "/out/a"; the branch without an output
    dataset returns the element [input_paths[0]]. *)
Theorem validate_output_dataset_returns_list :
  validate_workflow_compatibility zarr_dataset any_workflow
    (Some out_dataset)
  = Return (PyList ["/out/a"])
  /\ validate_workflow_compatibility zarr_dataset any_workflow
       (Some out_dataset)
     <> Return (PyStr "/out/a")
  /\ validate_workflow_compatibility zarr_dataset any_workflow None
     = Return (PyStr "/data/a").
Proof. repeat split. discriminate. Qed.

(** ** C2: the narrower entry point on a read-only input *)

(** C2, as stated, fails: on a read-only dataset with one path and
    [overwrite_input] true, the error is not of kind [ReadOnlyInput]. *)
Lemma auto_output_dataset_read_only_not_ReadOnlyInput :
  ~ fails_with
      (auto_output_dataset tt png_read_only_dataset any_workflow true)
      ReadOnlyInput.
Proof. intros (e & He & Hk). inversion He; subst e. discriminate Hk. Qed.

(** C2, amended. For every input dataset with [read_only] true and
    exactly one path, [auto_output_dataset] with [overwrite_input] true
    raises [NotImplementedError], the same exception as when
    [overwrite_input] is false: its kind is [OverwriteNotRequested]. *)
Theorem auto_output_dataset_read_only {Project : Type} (project : Project)
    (input_dataset : Dataset.t) (workflow : Task.t) :
  Dataset.read_only input_dataset = true ->
  length (Dataset.paths input_dataset) = 1%nat ->
  auto_output_dataset project input_dataset workflow true
  = Raise NotImplementedError
  /\ auto_output_dataset project input_dataset workflow true
     = auto_output_dataset project input_dataset workflow false
  /\ fails_with (auto_output_dataset project input_dataset workflow true)
       OverwriteNotRequested.
Proof.
  intros Hro _. unfold auto_output_dataset. rewrite Hro. simpl.
  repeat split. apply fails_with_Raise. reflexivity.
Qed.

Lemma auto_output_dataset_read_only_witness :
  Dataset.read_only png_read_only_dataset = true
  /\ length (Dataset.paths png_read_only_dataset) = 1%nat
  /\ auto_output_dataset tt png_read_only_dataset any_workflow true
     = Raise NotImplementedError.
Proof.
  split; [reflexivity |]. split; [reflexivity |].
  apply (auto_output_dataset_read_only tt png_read_only_dataset any_workflow);
    reflexivity.
Defined.

(** ** C4: the type check comes first *)

(** C4. When the workflow's input type is not "Any" and differs from
    the input dataset's type, [validate_workflow_compatibility] raises
    the [TypeError] (kind [TypeMismatch]) for every value of the
    read-only flag, of the two path lists and of the optional output
    dataset; its message holds the workflow's input type, the workflow's
    name, the dataset's type and the dataset's name. *)
Theorem validate_type_mismatch_first
    (input_dataset : Dataset.t) (workflow : Task.t)
    (output_dataset : option Dataset.t) :
  Task.input_type workflow <> "Any" ->
  Task.input_type workflow <> Dataset.type input_dataset ->
  validate_workflow_compatibility input_dataset workflow output_dataset
  = Raise (TypeError
      ("Incompatible types `" +:+ Task.input_type workflow
       +:+ "` of workflow `" +:+ Task.name workflow
       +:+ "` and `" +:+ Dataset.type input_dataset
       +:+ "` of dataset `" +:+ Dataset.name input_dataset +:+ "`"))
  /\ fails_with
       (validate_workflow_compatibility input_dataset workflow
          output_dataset)
       TypeMismatch.
Proof.
  intros H1 H2. rewrite (validate_mismatch _ _ _ H1 H2).
  split; [reflexivity |]. apply fails_with_Raise. reflexivity.
Qed.

Lemma validate_type_mismatch_first_witness :
  Task.input_type zarr_workflow <> "Any"
  /\ Task.input_type zarr_workflow <> Dataset.type png_read_only_dataset
  /\ fails_with
       (validate_workflow_compatibility png_read_only_dataset zarr_workflow
          (Some out_two_paths))
       TypeMismatch.
Proof.
  split; [discriminate |]. split; [discriminate |].
  apply (validate_type_mismatch_first png_read_only_dataset zarr_workflow
           (Some out_two_paths)); discriminate.
Defined.

(** ** C5: a read-only input and no output dataset *)

(** C5, as stated, fails: a read-only dataset of type "png" under a
    workflow for "zarr" gives a type mismatch, not [ReadOnlyInput]. *)
Lemma validate_read_only_type_mismatch :
  Dataset.read_only png_read_only_dataset = true
  /\ ~ fails_with
         (validate_workflow_compatibility png_read_only_dataset
            zarr_workflow None)
         ReadOnlyInput.
Proof.
  split; [reflexivity |].
  intros (e & He & Hk). inversion He; subst e. discriminate Hk.
Qed.

(** C5, amended. For every workflow whose input type is "Any" or the
    input dataset's type, and every input dataset with [read_only]
    true, [validate_workflow_compatibility] without an output dataset
    raises the read-only [ValueError] (kind [ReadOnlyInput]), whatever
    the length of the dataset's paths. *)
Theorem validate_read_only_input
    (input_dataset : Dataset.t) (workflow : Task.t) :
  type_compatible workflow input_dataset ->
  Dataset.read_only input_dataset = true ->
  validate_workflow_compatibility input_dataset workflow None
  = Raise (ValueError (Some "Input dataset is read-only"))
  /\ fails_with
       (validate_workflow_compatibility input_dataset workflow None)
       ReadOnlyInput.
Proof.
  intros Hc Hro.
  assert (validate_workflow_compatibility input_dataset workflow None
          = Raise (ValueError (Some "Input dataset is read-only"))) as E.
  { unfold validate_workflow_compatibility.
    rewrite (type_guard_compatible _ _ Hc), Hro. reflexivity. }
  rewrite E. split; [reflexivity |]. apply fails_with_Raise. reflexivity.
Qed.

Lemma validate_read_only_input_witness :
  type_compatible any_workflow png_read_only_dataset
  /\ Dataset.read_only png_read_only_dataset = true
  /\ fails_with
       (validate_workflow_compatibility png_read_only_dataset any_workflow
          None)
       ReadOnlyInput.
Proof.
  split; [left; reflexivity |]. split; [reflexivity |].
  apply (validate_read_only_input png_read_only_dataset any_workflow);
    [left; reflexivity | reflexivity].
Defined.

(** ** C6: a writable input with one path and no output dataset *)

(** C6, as stated, fails: a writable dataset of type "png" with one
    path, under a workflow for "zarr", does not give its path back. *)
Lemma validate_single_input_type_mismatch :
  Dataset.read_only png_dataset = false
  /\ Dataset.paths png_dataset = ["/data/a"]
  /\ validate_workflow_compatibility png_dataset zarr_workflow None
     <> Return (PyStr "/data/a").
Proof. repeat split. discriminate. Qed.

(** C6, amended. For every workflow whose input type is "Any" or the
    input dataset's type, and every input dataset with [read_only]
    false and exactly one path [p], [validate_workflow_compatibility]
    without an output dataset returns the string [p]. *)
Theorem validate_single_input_path
    (input_dataset : Dataset.t) (workflow : Task.t) (p : string) :
  type_compatible workflow input_dataset ->
  Dataset.read_only input_dataset = false ->
  Dataset.paths input_dataset = [p] ->
  validate_workflow_compatibility input_dataset workflow None
  = Return (PyStr p).
Proof.
  intros Hc Hro Hp. unfold validate_workflow_compatibility.
  rewrite (type_guard_compatible _ _ Hc), Hro, Hp. reflexivity.
Qed.

Lemma validate_single_input_path_witness :
  type_compatible zarr_workflow zarr_dataset
  /\ Dataset.read_only zarr_dataset = false
  /\ Dataset.paths zarr_dataset = ["/data/a"]
  /\ validate_workflow_compatibility zarr_dataset zarr_workflow None
     = Return (PyStr "/data/a").
Proof.
  split; [right; reflexivity |]. split; [reflexivity |].
  split; [reflexivity |].
  apply (validate_single_input_path zarr_dataset zarr_workflow "/data/a");
    [right; reflexivity | reflexivity | reflexivity].
Defined.

(** ** C7: an output dataset without exactly one path *)

(** C7, as stated, fails: with an output dataset of two paths, a
    dataset of type "png" under a workflow for "zarr" gives a type
    mismatch, not [AmbiguousOutputPath]. *)
Lemma validate_output_paths_type_mismatch :
  length (Dataset.paths out_two_paths) <> 1%nat
  /\ ~ fails_with
         (validate_workflow_compatibility png_dataset zarr_workflow
            (Some out_two_paths))
         AmbiguousOutputPath.
Proof.
  split; [discriminate |].
  intros (e & He & Hk). inversion He; subst e. discriminate Hk.
Qed.

(** C7, amended. For every workflow whose input type is "Any" or the
    input dataset's type, and every supplied output dataset whose paths
    are not exactly one, [validate_workflow_compatibility] raises the
    [ValueError] of the output branch (kind [AmbiguousOutputPath]),
    whatever the input dataset's read-only flag and paths. *)
Theorem validate_output_paths_ambiguous
    (input_dataset : Dataset.t) (workflow : Task.t) (out : Dataset.t) :
  type_compatible workflow input_dataset ->
  length (Dataset.paths out) <> 1%nat ->
  validate_workflow_compatibility input_dataset workflow (Some out)
  = Raise (ValueError (Some
      "Cannot determine output path: Multiple paths in dataset."))
  /\ fails_with
       (validate_workflow_compatibility input_dataset workflow (Some out))
       AmbiguousOutputPath.
Proof.
  intros Hc Hlen.
  assert (validate_workflow_compatibility input_dataset workflow (Some out)
          = Raise (ValueError (Some
              "Cannot determine output path: Multiple paths in dataset.")))
    as E.
  { unfold validate_workflow_compatibility.
    rewrite (type_guard_compatible _ _ Hc).
    apply Nat.eqb_neq in Hlen. rewrite Hlen. reflexivity. }
  rewrite E. split; [reflexivity |]. apply fails_with_Raise. reflexivity.
Qed.

Lemma validate_output_paths_ambiguous_witness :
  type_compatible any_workflow png_read_only_dataset
  /\ length (Dataset.paths out_two_paths) <> 1%nat
  /\ fails_with
       (validate_workflow_compatibility png_read_only_dataset any_workflow
          (Some out_two_paths))
       AmbiguousOutputPath.
Proof.
  split; [left; reflexivity |]. split; [discriminate |].
  apply (validate_output_paths_ambiguous png_read_only_dataset any_workflow
           out_two_paths); [left; reflexivity | discriminate].
Defined.

(** ** C8: the input type "Any" *)

(** C8. When the workflow's input type is "Any",
    [validate_workflow_compatibility] never fails with a type mismatch,
    whatever the input dataset's type and the other arguments. *)
Theorem validate_any_accepts_every_type
    (input_dataset : Dataset.t) (workflow : Task.t)
    (output_dataset : option Dataset.t) :
  Task.input_type workflow = "Any" ->
  ~ fails_with
      (validate_workflow_compatibility input_dataset workflow
         output_dataset)
      TypeMismatch.
Proof.
  intros Hany (e & He & Hk). revert He.
  unfold validate_workflow_compatibility. rewrite Hany. simpl.
  destruct output_dataset as [out |].
  - destruct (negb _); intros He; inversion He; subst e; discriminate Hk.
  - destruct (Dataset.read_only input_dataset);
      [| destruct (negb _)]; intros He; inversion He; subst e;
      discriminate Hk.
Qed.

Lemma validate_any_accepts_every_type_witness :
  Task.input_type any_workflow = "Any"
  /\ ~ fails_with
         (validate_workflow_compatibility png_dataset any_workflow None)
         TypeMismatch.
Proof.
  split; [reflexivity |].
  apply (validate_any_accepts_every_type png_dataset any_workflow None).
  reflexivity.
Defined.

(** * Properties of the job logger *)

Section JobLogger.

Implicit Types (st : State) (logger r : LoggerRef) (h : nat).

(** *** The loop of [close_job_logger] *)

(** The body of the loop, as a computation. *)
Lemma close_body_run h st :
  (st' <- get ;;
   if isinstance_FileHandler st' h then FileHandler_close h else ret tt) st
  = (close_step h st,
     match flush_failure st h with
     | Some e => Raise e
     | None => Return tt
     end).
Proof.
  unfold bind, get, isinstance_FileHandler, FileHandler_close, close_step,
    flush_failure, ret.
  cbv beta iota.
  destruct (heap st !! h) as [hd |] eqn:Hh; simpl; [| reflexivity].
  destruct (is_FileHandler hd); [| reflexivity].
  rewrite Hh. destruct (stream hd) as [sid |]; [| reflexivity].
  destruct (stream_flush_error st sid); reflexivity.
Qed.

Lemma close_all_nil st : close_all [] st = (st, Return tt).
Proof. reflexivity. Qed.

Lemma close_all_cons h (l : list nat) st :
  close_all (h :: l) st
  = match flush_failure st h with
    | Some e => (close_step h st, Raise e)
    | None => close_all l (close_step h st)
    end.
Proof.
  unfold close_all. simpl. unfold bind at 1. rewrite close_body_run.
  destruct (flush_failure st h); reflexivity.
Qed.

Lemma close_job_logger_run logger st :
  close_job_logger logger st = close_all (handlers_of st logger) st.
Proof. reflexivity. Qed.

(** *** One iteration *)

Lemma close_step_loggers h st r :
  lookup_logger (close_step h st) r = lookup_logger st r.
Proof.
  unfold close_step. destruct (heap st !! h) as [hd |]; [| reflexivity].
  destruct (is_FileHandler hd); [| reflexivity].
  destruct (stream hd); destruct r; reflexivity.
Qed.


Lemma close_step_heap_ne h h' st :
  h <> h' -> heap (close_step h st) !! h' = heap st !! h'.
Proof.
  intros Hne. unfold close_step.
  destruct (heap st !! h) as [hd |]; [| reflexivity].
  destruct (is_FileHandler hd); [| reflexivity].
  destruct (stream hd); simpl; apply lookup_insert_ne; exact Hne.
Qed.

Lemma close_step_heap_eq h st hd :
  heap st !! h = Some hd -> is_FileHandler hd = true ->
  heap (close_step h st) !! h = Some (closed_handler hd).
Proof.
  intros Hh Hf. unfold close_step. rewrite Hh, Hf.
  destruct (stream hd); simpl; apply lookup_insert_eq.
Qed.

Lemma close_step_not_file h st :
  isinstance_FileHandler st h = false -> close_step h st = st.
Proof.
  unfold isinstance_FileHandler, close_step.
  destruct (heap st !! h) as [hd |]; simpl; [| reflexivity].
  intros ->. reflexivity.
Qed.

(** What an iteration does to any handler object: nothing, or it
    closes it. *)
Lemma close_step_heap h h' st hd :
  heap st !! h' = Some hd ->
  heap (close_step h st) !! h' = Some hd
  \/ (is_FileHandler hd = true
      /\ heap (close_step h st) !! h' = Some (closed_handler hd)).
Proof.
  intros Hh. destruct (decide (h = h')) as [-> | Hne].
  - destruct (is_FileHandler hd) eqn:Hf.
    + right. split; [reflexivity |]. apply close_step_heap_eq; assumption.
    + left. rewrite close_step_not_file; [exact Hh |].
      unfold isinstance_FileHandler. rewrite Hh. exact Hf.
  - left. rewrite close_step_heap_ne by exact Hne. exact Hh.
Qed.

Lemma close_step_heap_None h h' st :
  heap st !! h' = None -> heap (close_step h st) !! h' = None.
Proof.
  intros Hh. destruct (decide (h = h')) as [-> | Hne].
  - unfold close_step. rewrite Hh. exact Hh.
  - rewrite close_step_heap_ne by exact Hne. exact Hh.
Qed.



Lemma stream_of_close_step_ne h h' st :
  h <> h' -> stream_of (close_step h st) h' = stream_of st h'.
Proof.
  intros Hne. unfold stream_of. rewrite close_step_heap_ne by exact Hne.
  reflexivity.
Qed.

Lemma stream_of_close_step_eq h st : stream_of (close_step h st) h = None.
Proof.
  unfold stream_of. destruct (heap st !! h) as [hd |] eqn:Hh.
  - destruct (is_FileHandler hd) eqn:Hf.
    + rewrite (close_step_heap_eq _ _ _ Hh Hf). simpl. rewrite Hf.
      reflexivity.
    + rewrite close_step_not_file
        by (unfold isinstance_FileHandler; rewrite Hh; exact Hf).
      rewrite Hh, Hf. reflexivity.
  - rewrite (close_step_heap_None _ _ _ Hh). reflexivity.
Qed.

(** An iteration closes the file object of its handler and no other. *)
Lemma close_step_streams_ne h st sid :
  stream_of st h <> Some sid ->
  streams (close_step h st) !! sid = streams st !! sid.
Proof.
  unfold stream_of, close_step.
  destruct (heap st !! h) as [hd |]; [| reflexivity].
  destruct (is_FileHandler hd); [| reflexivity].
  destruct (stream hd) as [sid' |]; [| reflexivity].
  intros Hne. simpl. apply lookup_alter_ne. congruence.
Qed.




(** *** Settled handlers *)

Lemma settled_close_step_eq h st : settled (close_step h st) h.
Proof.
  intros hd Hh Hf. destruct (heap st !! h) as [hd0 |] eqn:Hh0.
  - destruct (is_FileHandler hd0) eqn:Hf0.
    + rewrite (close_step_heap_eq _ _ _ Hh0 Hf0) in Hh.
      injection Hh as <-. split; reflexivity.
    + rewrite close_step_not_file in Hh
        by (unfold isinstance_FileHandler; rewrite Hh0; exact Hf0).
      congruence.
  - rewrite (close_step_heap_None _ _ _ Hh0) in Hh. discriminate.
Qed.

Lemma settled_close_step h h' st :
  settled st h' -> settled (close_step h st) h'.
Proof.
  intros Hs hd Hh Hf. destruct (heap st !! h') as [hd0 |] eqn:Hh0.
  - destruct (close_step_heap h h' st hd0 Hh0) as [H | [Hf0 H]];
      rewrite H in Hh; injection Hh as <-.
    + apply Hs; [exact Hh0 | exact Hf].
    + split; reflexivity.
  - rewrite (close_step_heap_None _ _ _ Hh0) in Hh. discriminate.
Qed.

Lemma set_heap_id h (hd : Handler) st :
  heap st !! h = Some hd -> set_heap (insert h hd) st = st.
Proof.
  intros Hh. unfold set_heap. rewrite (insert_id _ _ _ Hh).
  destruct st; reflexivity.
Qed.

Lemma settled_fixed h st :
  settled st h -> close_step h st = st /\ flush_failure st h = None.
Proof.
  intros Hs. unfold close_step, flush_failure.
  destruct (heap st !! h) as [hd |] eqn:Hh; [| split; reflexivity].
  destruct (is_FileHandler hd) eqn:Hf; [| split; reflexivity].
  destruct (Hs hd Hh Hf) as [Hstream Hclosed]. rewrite Hstream.
  split; [| reflexivity]. apply set_heap_id. rewrite Hh. f_equal.
  destruct hd; simpl in *; subst; reflexivity.
Qed.

(** *** The whole loop *)

Lemma close_all_loggers (l : list nat) st r :
  lookup_logger (fst (close_all l st)) r = lookup_logger st r.
Proof.
  revert st. induction l as [| h l IH]; intros st; [reflexivity |].
  rewrite close_all_cons. destruct (flush_failure st h); simpl.
  - apply close_step_loggers.
  - rewrite IH. apply close_step_loggers.
Qed.



Lemma close_all_heap_None (l : list nat) st h :
  heap st !! h = None -> heap (fst (close_all l st)) !! h = None.
Proof.
  revert st. induction l as [| x l IH]; intros st Hh; [exact Hh |].
  rewrite close_all_cons. destruct (flush_failure st x); simpl.
  - apply close_step_heap_None. exact Hh.
  - apply IH, close_step_heap_None. exact Hh.
Qed.

(** A handler that is no file handler, or is not in the list, is left
    as it was. *)
Lemma close_all_frame (l : list nat) st h :
  h ∉ l \/ isinstance_FileHandler st h = false ->
  heap (fst (close_all l st)) !! h = heap st !! h.
Proof.
  intros Hh. destruct (heap st !! h) as [hd |] eqn:Hhd.
  - revert st Hh Hhd. induction l as [| x l IH]; intros st Hh Hhd;
      [exact Hhd |].
    rewrite close_all_cons.
    assert (heap (close_step x st) !! h = Some hd) as Hstep.
    { destruct Hh as [Hnin | Hnf].
      - rewrite close_step_heap_ne; [exact Hhd |].
        intros ->. apply Hnin, list_elem_of_here.
      - destruct (decide (x = h)) as [-> | Hne].
        + rewrite close_step_not_file by exact Hnf. exact Hhd.
        + rewrite close_step_heap_ne by exact Hne. exact Hhd. }
    destruct (flush_failure st x); simpl; [exact Hstep |].
    apply IH; [| exact Hstep].
    destruct Hh as [Hnin | Hnf].
    + left. intros Hin. apply Hnin, list_elem_of_further, Hin.
    + right. unfold isinstance_FileHandler in *.
      rewrite Hstep. rewrite Hhd in Hnf. exact Hnf.
  - apply close_all_heap_None. exact Hhd.
Qed.

(** A file object that is the stream of no handler of the list is
    left as it was. *)
Lemma close_all_streams_frame (l : list nat) st sid :
  (forall x, x ∈ l -> stream_of st x <> Some sid) ->
  streams (fst (close_all l st)) !! sid = streams st !! sid.
Proof.
  revert st. induction l as [| x l IH]; intros st Hl; [reflexivity |].
  rewrite close_all_cons.
  assert (streams (close_step x st) !! sid = streams st !! sid) as Hstep
    by (apply close_step_streams_ne, Hl, list_elem_of_here).
  destruct (flush_failure st x); simpl; [exact Hstep |].
  rewrite IH; [exact Hstep |].
  intros y Hy. destruct (decide (x = y)) as [-> | Hne].
  - rewrite stream_of_close_step_eq. discriminate.
  - rewrite stream_of_close_step_ne by exact Hne.
    apply Hl, list_elem_of_further, Hy.
Qed.


Lemma settled_close_all (l : list nat) st h :
  settled st h -> settled (fst (close_all l st)) h.
Proof.
  revert st. induction l as [| x l IH]; intros st Hs; [exact Hs |].
  rewrite close_all_cons. destruct (flush_failure st x); simpl.
  - apply settled_close_step. exact Hs.
  - apply IH, settled_close_step. exact Hs.
Qed.


(** When the loop returns, every handler of the list is settled. *)
Lemma close_all_settles (l : list nat) st :
  snd (close_all l st) = Return tt ->
  forall h, h ∈ l -> settled (fst (close_all l st)) h.
Proof.
  revert st. induction l as [| x l IH]; intros st Hret h Hin;
    [inversion Hin |].
  revert Hret. rewrite close_all_cons.
  destruct (flush_failure st x); simpl; [discriminate |]. intros Hret.
  apply elem_of_cons in Hin as [-> | Hin].
  - apply settled_close_all, settled_close_step_eq.
  - apply IH; assumption.
Qed.

(** On settled handlers the loop does nothing. *)
Lemma close_all_settled (l : list nat) st :
  (forall h, h ∈ l -> settled st h) -> close_all l st = (st, Return tt).
Proof.
  induction l as [| x l IH]; intros Hs; [reflexivity |].
  rewrite close_all_cons.
  destruct (settled_fixed x st (Hs x (list_elem_of_here _ _))) as [E F].
  rewrite F, E. apply IH. intros h Hin.
  apply Hs, list_elem_of_further, Hin.
Qed.

(** *** Loggers in the registry *)

Lemma update_logger_lookup c f st r :
  lookup_logger (update_logger c f st) r
  = if decide (c = r) then f <$> lookup_logger st r else lookup_logger st r.
Proof.
  destruct (decide (c = r)) as [<- | Hne].
  - destruct c as [| n | i]; simpl.
    + reflexivity.
    + rewrite lookup_alter_eq.
      destruct (loggerDict st !! n) as [[l | lm] |]; reflexivity.
    + apply lookup_alter_eq.
  - destruct c as [| n | i], r as [| n' | i']; simpl;
      try reflexivity; try congruence.
    + rewrite lookup_alter_ne by congruence. reflexivity.
    + apply lookup_alter_ne. congruence.
Qed.

Lemma same_env_refl st : same_env st st.
Proof. repeat split. Qed.

Lemma same_env_trans st1 st2 st3 :
  same_env st1 st2 -> same_env st2 st3 -> same_env st1 st3.
Proof.
  intros (A1 & A2 & A3 & A4 & A5 & A6 & A7)
         (B1 & B2 & B3 & B4 & B5 & B6 & B7).
  repeat split; congruence.
Qed.

Lemma same_env_update_logger c f st :
  (forall l, name (f l) = name l) -> same_env st (update_logger c f st).
Proof.
  intros Hname. destruct c; repeat split. simpl. apply Hname.
Qed.

Lemma same_env_set_loggerDict f st : same_env st (set_loggerDict f st).
Proof. repeat split. Qed.

Lemma view_update_logger c f st r :
  (forall l, attrs (f l) = attrs l) ->
  view (update_logger c f st) r = view st r.
Proof.
  intros Hattrs. unfold view. rewrite update_logger_lookup.
  destruct (decide (c = r)); [| reflexivity].
  destruct (lookup_logger st r); simpl; [| reflexivity].
  rewrite Hattrs. reflexivity.
Qed.

(** Writing a place holder where there is no logger changes no
    logger. *)
Lemma lookup_insert_placeholder k lm st r :
  lookup_logger st (NamedLogger k) = None ->
  lookup_logger (set_loggerDict (insert k (PlaceHolder lm)) st) r
  = lookup_logger st r.
Proof.
  intros Hk. destruct r as [| n |]; simpl; try reflexivity.
  destruct (decide (k = n)) as [-> | Hne].
  - rewrite lookup_insert_eq. simpl in Hk. rewrite Hk. reflexivity.
  - rewrite lookup_insert_ne by exact Hne. reflexivity.
Qed.

Lemma fixupParents_loop_spec alogger (prefixes : list string) st :
  same_env st (fst (fixupParents_loop alogger prefixes st))
  /\ forall r,
       lookup_logger (fst (fixupParents_loop alogger prefixes st)) r
       = lookup_logger st r.
Proof.
  revert st. induction prefixes as [| p ps IH]; intros st; simpl.
  - split; [apply same_env_refl | reflexivity].
  - destruct (loggerDict st !! p) as [[l | lm] |] eqn:Hp; simpl.
    + split; [apply same_env_refl | reflexivity].
    + destruct (IH (set_loggerDict
                      (insert p (PlaceHolder (placeholder_append alogger lm)))
                      st)) as [Henv Hlook].
      split.
      * eapply same_env_trans; [apply same_env_set_loggerDict | exact Henv].
      * intros r. rewrite Hlook. apply lookup_insert_placeholder.
        simpl. rewrite Hp. reflexivity.
    + destruct (IH (set_loggerDict (insert p (PlaceHolder [alogger])) st))
        as [Henv Hlook].
      split.
      * eapply same_env_trans; [apply same_env_set_loggerDict | exact Henv].
      * intros r. rewrite Hlook. apply lookup_insert_placeholder.
        simpl. rewrite Hp. reflexivity.
Qed.

Lemma attrs_set_parent p (l : Logger) : attrs (set_parent p l) = attrs l.
Proof. reflexivity. Qed.

Lemma name_set_parent p (l : Logger) : name (set_parent p l) = name l.
Proof. reflexivity. Qed.

Lemma fixupParents_spec n st :
  same_env st (fixupParents n st)
  /\ forall r, view (fixupParents n st) r = view st r.
Proof.
  unfold fixupParents.
  destruct (fixupParents_loop_spec (NamedLogger n) (ancestors n) st)
    as [Henv Hlook].
  destruct (fixupParents_loop (NamedLogger n) (ancestors n) st)
    as [st' rv]. simpl in Henv, Hlook. cbv beta iota.
  split.
  - eapply same_env_trans; [exact Henv |].
    apply same_env_update_logger, name_set_parent.
  - intros r. rewrite view_update_logger by apply attrs_set_parent.
    unfold view. rewrite Hlook. reflexivity.
Qed.

Lemma fixupChildren_step_spec n st c :
  same_env st (fixupChildren_step n st c)
  /\ forall r, view (fixupChildren_step n st c) r = view st r.
Proof.
  unfold fixupChildren_step.
  destruct (lookup_logger st c) as [lc |];
    [| split; [apply same_env_refl | reflexivity]].
  destruct (parent lc) as [p |];
    [| split; [apply same_env_refl | reflexivity]].
  destruct (lookup_logger st p) as [lp |];
    [| split; [apply same_env_refl | reflexivity]].
  destruct (negb _); [| split; [apply same_env_refl | reflexivity]].
  split.
  - eapply same_env_trans;
      apply same_env_update_logger, name_set_parent.
  - intros r. rewrite !view_update_logger by apply attrs_set_parent.
    reflexivity.
Qed.

Lemma fixupChildren_spec (ph : list LoggerRef) n st :
  same_env st (fixupChildren ph n st)
  /\ forall r, view (fixupChildren ph n st) r = view st r.
Proof.
  unfold fixupChildren. revert st.
  induction ph as [| c ph IH]; intros st; simpl.
  - split; [apply same_env_refl | reflexivity].
  - destruct (fixupChildren_step_spec n st c) as [E1 V1].
    destruct (IH (fixupChildren_step n st c)) as [E2 V2].
    split; [eapply same_env_trans; eassumption |].
    intros r. rewrite V2. apply V1.
Qed.

(** Registering a new logger under a name that holds none. *)
Lemma view_insert_logger n (l : Logger) st r :
  lookup_logger st (NamedLogger n) = None ->
  view (set_loggerDict (insert n (LoggerEntry l)) st) r
  = if decide (r = NamedLogger n) then Some (attrs l) else view st r.
Proof.
  intros Hn. unfold view. destruct r as [| n' | i]; cbn [lookup_logger
    set_loggerDict loggerDict root detached].
  - reflexivity.
  - destruct (decide (NamedLogger n' = NamedLogger n)) as [E | E].
    + injection E as ->. rewrite lookup_insert_eq. reflexivity.
    + rewrite lookup_insert_ne by congruence. reflexivity.
  - reflexivity.
Qed.

Lemma getLogger_ret logger_name st :
  snd (getLogger logger_name st) = Return (logger_ref st logger_name).
Proof.
  unfold getLogger. destruct (logger_ref st logger_name) as [| n | i];
    try reflexivity.
  destruct (loggerDict st !! n) as [[l | ph] |]; reflexivity.
Qed.

Lemma logger_ref_cases st logger_name :
  logger_ref st logger_name = RootLogger
  \/ logger_ref st logger_name = NamedLogger logger_name.
Proof. unfold logger_ref. destruct (_ || _); auto. Qed.

(** [getLogger] leaves the handler objects, the files and the
    environment alone, and changes the parent of loggers at most; the
    logger it returns exists afterwards, new if it did not exist. *)
Lemma getLogger_spec logger_name st :
  same_env st (fst (getLogger logger_name st))
  /\ forall r,
       view (fst (getLogger logger_name st)) r
       = if decide (r = logger_ref st logger_name)
         then Some (default (attrs (new_logger logger_name)) (view st r))
         else view st r.
Proof.
  unfold getLogger.
  destruct (logger_ref_cases st logger_name) as [-> | ->].
  - simpl. split; [apply same_env_refl |]. intros r.
    destruct (decide (r = RootLogger)) as [-> | _]; reflexivity.
  - set (n := logger_name).
    destruct (loggerDict st !! n) as [[l | ph] |] eqn:Hn; simpl.
    + split; [apply same_env_refl |]. intros r.
      destruct (decide (r = NamedLogger n)) as [-> | _]; [| reflexivity].
      unfold view. simpl. rewrite Hn. reflexivity.
    + destruct (fixupParents_spec n
                  (fixupChildren ph n
                     (set_loggerDict (insert n (LoggerEntry (new_logger n)))
                        st))) as [E1 V1].
      destruct (fixupChildren_spec ph n
                  (set_loggerDict (insert n (LoggerEntry (new_logger n))) st))
        as [E2 V2].
      split.
      * eapply same_env_trans; [| exact E1].
        eapply same_env_trans; [| exact E2].
        apply same_env_set_loggerDict.
      * intros r. rewrite V1, V2, view_insert_logger
          by (simpl; rewrite Hn; reflexivity).
        destruct (decide (r = NamedLogger n)) as [-> | _]; [| reflexivity].
        unfold view. simpl. rewrite Hn. reflexivity.
    + destruct (fixupParents_spec n
                  (set_loggerDict (insert n (LoggerEntry (new_logger n))) st))
        as [E1 V1].
      split.
      * eapply same_env_trans; [| exact E1]. apply same_env_set_loggerDict.
      * intros r. rewrite V1, view_insert_logger
          by (simpl; rewrite Hn; reflexivity).
        destruct (decide (r = NamedLogger n)) as [-> | _]; [| reflexivity].
        unfold view. simpl. rewrite Hn. reflexivity.
Qed.

(** *** [set_job_logger] *)

Lemma parse_mode_append : io.parse_mode "a" = Return io.Appending.
Proof. reflexivity. Qed.

(** [logging.FileHandler(path, "a")], as a function of the state. *)
Lemma FileHandler_run path st :
  FileHandler path "a" st
  = if bool_decide (posixpath.abspath (cwd st) path ∈ unopenable st)
    then (st, Raise (OSError (Some (posixpath.abspath (cwd st) path))))
    else
      (set_heap
         (insert (fresh (dom (heap st)))
            (job_handler (posixpath.abspath (cwd st) path) None
               (fresh (dom (streams st)))))
         (set_streams
            (insert (fresh (dom (streams st)))
               (MkStream (posixpath.abspath (cwd st) path) false []))
            (set_files (touch (posixpath.abspath (cwd st) path)) st)),
       Return (fresh (dom (heap st)))).
Proof.
  unfold FileHandler, bind, get, builtin_open, new_stream, modify, ret.
  cbv beta iota. rewrite parse_mode_append.
  destruct (bool_decide _); reflexivity.
Qed.

Lemma set_heap_alter_insert h (hd : Handler) (f : Handler -> Handler) st :
  set_heap (alter f h) (set_heap (insert h hd) st)
  = set_heap (insert h (f hd)) st.
Proof. unfold set_heap. simpl. rewrite alter_insert_eq. reflexivity. Qed.

Lemma same_env_refused logger_name lvl st :
  same_env st (refused logger_name lvl st).
Proof.
  unfold refused. eapply same_env_trans.
  - apply (getLogger_spec logger_name st).
  - apply same_env_update_logger. reflexivity.
Qed.

Lemma set_job_logger_unopenable st logger_name path lvl fmt :
  posixpath.abspath (cwd st) path ∈ unopenable st ->
  set_job_logger logger_name path lvl fmt st
  = (refused logger_name lvl st,
     Raise (OSError (Some (posixpath.abspath (cwd st) path)))).
Proof.
  intros Hp. unfold set_job_logger.
  pose proof (same_env_refused logger_name lvl st) as Henv.
  unfold refused in *. unfold bind at 1.
  pose proof (getLogger_ret logger_name st) as Hret.
  destruct (getLogger logger_name st) as [st1 r1]. simpl in Hret.
  subst r1. simpl fst in *.
  unfold bind at 1, assign_setLevel, modify.
  unfold bind at 1. rewrite FileHandler_run.
  fold (with_setLevel lvl).
  destruct Henv as (_ & _ & _ & Hu & _ & Hc & _).
  rewrite Hc, Hu, bool_decide_eq_true_2 by exact Hp. reflexivity.
Qed.

Lemma set_job_logger_run st logger_name path lvl fmt :
  posixpath.abspath (cwd st) path ∉ unopenable st ->
  set_job_logger logger_name path lvl fmt st
  = (acquired logger_name path lvl fmt st,
     Return (logger_ref st logger_name)).
Proof.
  intros Hp. unfold set_job_logger, acquired. cbv zeta.
  pose proof (same_env_refused logger_name lvl st) as Henv.
  unfold refused in *. unfold bind at 1.
  pose proof (getLogger_ret logger_name st) as Hret.
  destruct (getLogger logger_name st) as [st1 r1]. simpl in Hret.
  subst r1. simpl fst in *.
  unfold bind at 1, assign_setLevel, modify.
  unfold bind at 1. rewrite FileHandler_run.
  fold (with_setLevel lvl).
  destruct Henv as (Hh & Hs & _ & Hu & _ & Hc & _).
  rewrite Hc, Hu, Hh, Hs, bool_decide_eq_false_2 by exact Hp.
  unfold bind, setFormatter, addHandler, modify, ret.
  rewrite set_heap_alter_insert. reflexivity.
Qed.

(** *** The loggers after [set_job_logger] *)

Lemma handlers_of_view st r :
  handlers_of st r = from_option (fun a => snd (fst a)) [] (view st r).
Proof.
  unfold handlers_of, view. destruct (lookup_logger st r); reflexivity.
Qed.

Lemma level_of_view st r :
  from_option level NOTSET (lookup_logger st r)
  = from_option (fun a => snd (fst (fst a))) NOTSET (view st r).
Proof. unfold view. destruct (lookup_logger st r); reflexivity. Qed.

Lemma getLogger_handlers_of logger_name st r :
  handlers_of (fst (getLogger logger_name st)) r = handlers_of st r.
Proof.
  rewrite !handlers_of_view.
  destruct (getLogger_spec logger_name st) as [_ ->].
  destruct (decide _); [| reflexivity]. destruct (view st r); reflexivity.
Qed.

Lemma getLogger_level_of logger_name st r :
  from_option level NOTSET (lookup_logger (fst (getLogger logger_name st)) r)
  = from_option level NOTSET (lookup_logger st r).
Proof.
  rewrite !level_of_view.
  destruct (getLogger_spec logger_name st) as [_ ->].
  destruct (decide _); [| reflexivity]. destruct (view st r); reflexivity.
Qed.

(** The logger that [getLogger] returns exists afterwards. *)
Lemma getLogger_registered logger_name st :
  is_Some (lookup_logger (fst (getLogger logger_name st))
             (logger_ref st logger_name)).
Proof.
  destruct (getLogger_spec logger_name st) as [_ Hview].
  specialize (Hview (logger_ref st logger_name)).
  rewrite decide_True in Hview by reflexivity.
  unfold view in Hview.
  destruct (lookup_logger _ _); [eauto | discriminate].
Qed.

Lemma refused_handlers_of logger_name lvl st r :
  handlers_of (refused logger_name lvl st) r = handlers_of st r.
Proof.
  rewrite <- (getLogger_handlers_of logger_name st r).
  unfold refused, handlers_of. rewrite update_logger_lookup.
  destruct (decide _); [| reflexivity].
  destruct (lookup_logger _ r); reflexivity.
Qed.

Lemma refused_level_of logger_name lvl st r :
  from_option level NOTSET (lookup_logger (refused logger_name lvl st) r)
  = from_option level NOTSET (lookup_logger st r).
Proof.
  rewrite <- (getLogger_level_of logger_name st r).
  unfold refused. rewrite update_logger_lookup.
  destruct (decide _); [| reflexivity].
  destruct (lookup_logger _ r); reflexivity.
Qed.

Lemma refused_setLevel logger_name lvl st :
  (setLevel <$> lookup_logger (refused logger_name lvl st)
                  (logger_ref st logger_name))
  = Some (Some lvl).
Proof.
  unfold refused. rewrite update_logger_lookup, decide_True by reflexivity.
  destruct (getLogger_registered logger_name st) as [l ->]. reflexivity.
Qed.

Lemma acquired_lookup logger_name path lvl fmt st r :
  lookup_logger (acquired logger_name path lvl fmt st) r
  = if decide (logger_ref st logger_name = r)
    then with_handler (fresh (dom (heap st))) <$>
           lookup_logger (refused logger_name lvl st) r
    else lookup_logger (refused logger_name lvl st) r.
Proof.
  unfold acquired. cbv zeta. rewrite update_logger_lookup.
  destruct (decide _); destruct r; reflexivity.
Qed.

Lemma acquired_heap logger_name path lvl fmt st :
  heap (acquired logger_name path lvl fmt st)
  = <[fresh (dom (heap st)) :=
        job_handler (posixpath.abspath (cwd st) path) fmt
          (fresh (dom (streams st)))]> (heap st).
Proof.
  destruct (same_env_refused logger_name lvl st) as (Hh & _).
  unfold acquired. cbv zeta.
  destruct (logger_ref st logger_name); simpl; rewrite Hh; reflexivity.
Qed.

Lemma acquired_streams logger_name path lvl fmt st :
  streams (acquired logger_name path lvl fmt st)
  = <[fresh (dom (streams st)) :=
        MkStream (posixpath.abspath (cwd st) path) false []]> (streams st).
Proof.
  destruct (same_env_refused logger_name lvl st) as (_ & Hs & _).
  unfold acquired. cbv zeta.
  destruct (logger_ref st logger_name); simpl; rewrite Hs; reflexivity.
Qed.

Lemma acquired_files logger_name path lvl fmt st :
  files (acquired logger_name path lvl fmt st)
  = touch (posixpath.abspath (cwd st) path) (files st).
Proof.
  destruct (same_env_refused logger_name lvl st) as (_ & _ & Hf & _).
  unfold acquired. cbv zeta.
  destruct (logger_ref st logger_name); simpl; rewrite Hf; reflexivity.
Qed.

Lemma acquired_env logger_name path lvl fmt st :
  unopenable (acquired logger_name path lvl fmt st) = unopenable st
  /\ unwritable (acquired logger_name path lvl fmt st) = unwritable st
  /\ cwd (acquired logger_name path lvl fmt st) = cwd st
  /\ name (root (acquired logger_name path lvl fmt st)) = name (root st).
Proof.
  destruct (same_env_refused logger_name lvl st)
    as (_ & _ & _ & Hu & Hw & Hc & Hn).
  unfold acquired, with_handler. cbv zeta.
  destruct (logger_ref st logger_name); simpl; repeat split;
    try assumption.
  destruct (bool_decide _); exact Hn.
Qed.

Lemma fresh_heap_None st : heap st !! fresh (dom (heap st)) = None.
Proof. apply not_elem_of_dom, is_fresh. Qed.

Lemma fresh_handler_unattached st r :
  handlers_allocated st -> fresh (dom (heap st)) ∉ handlers_of st r.
Proof.
  intros Hwf Hin. apply Hwf in Hin. rewrite fresh_heap_None in Hin.
  destruct Hin as [hd Hhd]. discriminate.
Qed.

Lemma acquired_handlers_of logger_name path lvl fmt st :
  handlers_allocated st ->
  handlers_of (acquired logger_name path lvl fmt st)
    (logger_ref st logger_name)
  = handlers_of st (logger_ref st logger_name) ++ [fresh (dom (heap st))].
Proof.
  intros Hwf.
  pose proof (fresh_handler_unattached st (logger_ref st logger_name) Hwf)
    as Hfresh.
  rewrite <- (refused_handlers_of logger_name lvl st) in Hfresh |- *.
  unfold handlers_of in *. rewrite acquired_lookup.
  rewrite decide_True by reflexivity.
  destruct (lookup_logger (refused logger_name lvl st) _) as [l |] eqn:Hl.
  - simpl in *. unfold with_handler.
    rewrite bool_decide_eq_false_2 by exact Hfresh. reflexivity.
  - exfalso. pose proof (refused_setLevel logger_name lvl st) as H.
    rewrite Hl in H. discriminate.
Qed.

Lemma acquired_handlers_of_ne logger_name path lvl fmt st r :
  r <> logger_ref st logger_name ->
  handlers_of (acquired logger_name path lvl fmt st) r = handlers_of st r.
Proof.
  intros Hne. rewrite <- (refused_handlers_of logger_name lvl st r).
  unfold handlers_of. rewrite acquired_lookup.
  rewrite decide_False by congruence. reflexivity.
Qed.

Lemma acquired_level_of logger_name path lvl fmt st r :
  from_option level NOTSET
    (lookup_logger (acquired logger_name path lvl fmt st) r)
  = from_option level NOTSET (lookup_logger st r).
Proof.
  rewrite <- (refused_level_of logger_name lvl st r), acquired_lookup.
  destruct (decide _); [| reflexivity].
  destruct (lookup_logger _ r) as [l |]; [| reflexivity].
  simpl. unfold with_handler. destruct (bool_decide _); reflexivity.
Qed.

(** *** The heap invariant *)

Lemma fresh_streams_None st : streams st !! fresh (dom (streams st)) = None.
Proof. apply not_elem_of_dom, is_fresh. Qed.

Lemma handlers_allocated_initial fs bad : handlers_allocated (initial fs bad).
Proof.
  intros r h. destruct r as [| n | i]; unfold handlers_of; simpl.
  - intros Hin. inversion Hin.
  - rewrite lookup_empty. simpl. intros Hin. inversion Hin.
  - rewrite lookup_empty. simpl. intros Hin. inversion Hin.
Qed.


Lemma handlers_allocated_acquired logger_name path lvl fmt st :
  handlers_allocated st ->
  handlers_allocated (acquired logger_name path lvl fmt st).
Proof.
  intros Hwf r h Hin. rewrite acquired_heap.
  apply lookup_insert_is_Some'.
  destruct (decide (r = logger_ref st logger_name)) as [-> | Hne].
  - rewrite acquired_handlers_of in Hin by exact Hwf.
    apply elem_of_app in Hin as [Hin | Hin].
    + right. apply Hwf with (logger_ref st logger_name). exact Hin.
    + left. apply list_elem_of_singleton in Hin. congruence.
  - rewrite acquired_handlers_of_ne in Hin by exact Hne.
    right. apply Hwf with r. exact Hin.
Qed.

Lemma handlers_allocated_set_job_logger st logger_name path lvl fmt :
  handlers_allocated st ->
  handlers_allocated (fst (set_job_logger logger_name path lvl fmt st)).
Proof.
  intros Hwf.
  destruct (decide (posixpath.abspath (cwd st) path ∈ unopenable st))
    as [Hp | Hp].
  - rewrite set_job_logger_unopenable by exact Hp. simpl.
    intros r h. rewrite refused_handlers_of.
    destruct (same_env_refused logger_name lvl st) as (-> & _).
    apply Hwf.
  - rewrite set_job_logger_run by exact Hp.
    apply handlers_allocated_acquired. exact Hwf.
Qed.

(** [set_job_logger] never writes [logger.level]: the returned logger
    has the level it had before the call, [NOTSET] if the call created
    it, and the requested level sits in the attribute [setLevel]. *)
Lemma set_job_logger_level st logger_name path lvl fmt st' r :
  set_job_logger logger_name path lvl fmt st = (st', Return r) ->
  r = logger_ref st logger_name
  /\ (level <$> lookup_logger st' r)
     = Some (from_option level NOTSET (lookup_logger st r))
  /\ (setLevel <$> lookup_logger st' r) = Some (Some lvl).
Proof.
  destruct (decide (posixpath.abspath (cwd st) path ∈ unopenable st))
    as [Hp | Hp].
  - rewrite set_job_logger_unopenable by exact Hp. intros H. inversion H.
  - rewrite set_job_logger_run by exact Hp. intros H.
    inversion H; subst st' r; clear H.
    split; [reflexivity |].
    pose proof (acquired_level_of logger_name path lvl fmt st
                  (logger_ref st logger_name)) as Hlevel.
    pose proof (refused_setLevel logger_name lvl st) as Hset.
    rewrite acquired_lookup, decide_True by reflexivity.
    rewrite acquired_lookup, decide_True in Hlevel by reflexivity.
    destruct (lookup_logger (refused logger_name lvl st) _) as [l |];
      [| discriminate Hset].
    simpl in Hlevel, Hset |- *. unfold with_handler in *.
    destruct (bool_decide (fresh (dom (heap st)) ∈ handlers l));
      simpl in Hlevel |- *;
      (split; [f_equal; exact Hlevel | exact Hset]).
Qed.

(** ** C3: the level argument of [set_job_logger] *)

(** C3. Acquiring the logger "job-42" at level [ERROR] in a fresh
    interpreter returns a logger whose level is [NOTSET], not [ERROR]:
    the argument has only been stored under the attribute [setLevel].
    The logger therefore takes its threshold from the root logger and
    accepts a [WARNING] record, which is below the requested level. *)
Theorem set_job_logger_level_not_applied :
  let run :=
    set_job_logger "job-42" "/tmp/job-42.log" ERROR None (initial ∅ ∅) in
  snd run = Return (NamedLogger "job-42")
  /\ (level <$> lookup_logger (fst run) (NamedLogger "job-42"))
     = Some NOTSET
  /\ (level <$> lookup_logger (fst run) (NamedLogger "job-42"))
     <> Some ERROR
  /\ (setLevel <$> lookup_logger (fst run) (NamedLogger "job-42"))
     = Some (Some ERROR)
  /\ getEffectiveLevel (fst run) (NamedLogger "job-42") = WARNING
  /\ isEnabledFor (fst run) (NamedLogger "job-42") WARNING = true.
Proof.
  cbv zeta. repeat split; try (vm_compute; reflexivity).
  vm_compute. discriminate.
Qed.


(** ** C9: closing twice *)

(** C9, as stated, fails.  With a handler on the full device that still
    holds a record, followed by a handler on the log file, the first
    call raises and leaves the second handler open; the second call
    then closes it, so two calls do not leave the state of one.  With
    two such handlers the second call raises as well. *)
Lemma close_job_logger_not_idempotent :
  snd (close_job_logger (NamedLogger "job-42") stuck_state)
  = Raise (OSError None)
  /\ fst (close_job_logger (NamedLogger "job-42")
           (fst (close_job_logger (NamedLogger "job-42") stuck_state)))
     <> fst (close_job_logger (NamedLogger "job-42") stuck_state)
  /\ snd (close_job_logger (NamedLogger "job-42")
           (fst (close_job_logger (NamedLogger "job-42")
                   twice_stuck_state)))
     = Raise (OSError None).
Proof.
  split; [vm_compute; reflexivity |]. split; [| vm_compute; reflexivity].
  intros E. apply (f_equal (fun st => closed <$> heap st !! 1)) in E.
  vm_compute in E. discriminate E.
Qed.

(** C9, amended.  Whenever a call of [close_job_logger] returns, a
    second call on the same logger returns too and leaves the whole
    state (every logger, every handler object and stream, the files) as
    the first call left it; so the two calls in sequence do what the
    one call does. *)
Theorem close_job_logger_idempotent st logger :
  snd (close_job_logger logger st) = Return tt ->
  close_job_logger logger (fst (close_job_logger logger st))
  = (fst (close_job_logger logger st), Return tt)
  /\ (close_job_logger logger ;; close_job_logger logger) st
     = close_job_logger logger st.
Proof.
  intros Hret.
  assert (close_job_logger logger (fst (close_job_logger logger st))
          = (fst (close_job_logger logger st), Return tt)) as Htwice.
  { rewrite (close_job_logger_run logger (fst _)).
    rewrite close_job_logger_run in Hret |- *.
    unfold handlers_of at 1. rewrite close_all_loggers.
    apply close_all_settled. apply close_all_settles. exact Hret. }
  split; [exact Htwice |].
  unfold bind. revert Hret Htwice.
  destruct (close_job_logger logger st) as [st1 res]. simpl.
  intros -> ->. reflexivity.
Qed.

Lemma close_job_logger_idempotent_witness :
  snd (close_job_logger (NamedLogger "job-42") job_state) = Return tt
  /\ close_job_logger (NamedLogger "job-42")
       (fst (close_job_logger (NamedLogger "job-42") job_state))
     = (fst (close_job_logger (NamedLogger "job-42") job_state), Return tt).
Proof.
  assert (snd (close_job_logger (NamedLogger "job-42") job_state)
          = Return tt) as Hret by (vm_compute; reflexivity).
  split; [exact Hret |].
  apply (close_job_logger_idempotent job_state (NamedLogger "job-42") Hret).
Defined.

(** ** C10: closing detaches nothing *)




Lemma job_state_acquired :
  job_state = acquired "job-42" "/tmp/job-42.log" INFO None (initial ∅ ∅).
Proof.
  unfold job_state. rewrite set_job_logger_run; [reflexivity |].
  intros Hin. vm_compute in Hin. discriminate Hin.
Qed.

Lemma handlers_allocated_job_state : handlers_allocated job_state.
Proof.
  rewrite job_state_acquired.
  apply handlers_allocated_acquired, handlers_allocated_initial.
Qed.


End JobLogger.
(** * Further properties of the compatibility resolver *)

Section ResolverMore.

Implicit Types (input_dataset : Dataset.t) (workflow : Task.t).
Implicit Types (output_dataset : option Dataset.t).

(** The path-count test, as a proposition. *)
Lemma length_test (l : list string) :
  negb (length l =? 1)%nat = false <-> length l = 1%nat.
Proof.
  destruct (Nat.eqb_spec (length l) 1) as [E | E]; simpl; split;
    intros H; try reflexivity; try assumption; try discriminate.
  contradiction.
Qed.

Lemma length_one_inv (l : list string) :
  length l = 1%nat -> exists p, l = [p].
Proof.
  destruct l as [| p [| q l]]; simpl; intros H;
    [discriminate | exists p; reflexivity | discriminate].
Qed.

(** The type guard decides [type_compatible]. *)
Lemma type_guard_false_compatible workflow input_dataset :
  negb (String.eqb (Task.input_type workflow) "Any")
  && negb (String.eqb (Task.input_type workflow)
                      (Dataset.type input_dataset)) = false ->
  type_compatible workflow input_dataset.
Proof.
  unfold type_compatible.
  destruct (String.eqb_spec (Task.input_type workflow) "Any") as [E | E];
    [intros _; left; exact E |].
  destruct (String.eqb_spec (Task.input_type workflow)
              (Dataset.type input_dataset)) as [E' | E'];
    [intros _; right; exact E' |].
  simpl. discriminate.
Qed.

(** X1. [auto_output_dataset] returns a dataset exactly when
    [overwrite_input] is true, the input dataset is not read-only and
    it has exactly one path; what it returns is then the input dataset
    itself. *)
Theorem auto_output_dataset_success {Project : Type} (project : Project)
    input_dataset workflow (overwrite_input : bool) (out : Dataset.t) :
  auto_output_dataset project input_dataset workflow overwrite_input
  = Return out
  <-> overwrite_input = true
      /\ Dataset.read_only input_dataset = false
      /\ length (Dataset.paths input_dataset) = 1%nat
      /\ out = input_dataset.
Proof.
  unfold auto_output_dataset.
  destruct overwrite_input, (Dataset.read_only input_dataset); simpl;
    try (split; [discriminate | intros (H1 & H2 & _); discriminate]).
  destruct (Nat.eqb_spec (length (Dataset.paths input_dataset)) 1)
    as [E | E]; simpl.
  - split.
    + intros H. injection H as H1. subst out. repeat split. exact E.
    + intros (_ & _ & _ & ->). reflexivity.
  - split; [discriminate |]. intros (_ & _ & H & _). contradiction.
Qed.

(** X2. The failures of [auto_output_dataset]: it raises
    [NotImplementedError] exactly when [overwrite_input] is false or the
    dataset is read-only, a bare [ValueError] exactly when it would
    overwrite a writable dataset whose paths are not exactly one (none
    included), and no other exception. *)
Theorem auto_output_dataset_failures {Project : Type} (project : Project)
    input_dataset workflow (overwrite_input : bool) :
  (auto_output_dataset project input_dataset workflow overwrite_input
   = Raise NotImplementedError
   <-> overwrite_input = false \/ Dataset.read_only input_dataset = true)
  /\ (auto_output_dataset project input_dataset workflow overwrite_input
      = Raise (ValueError None)
      <-> overwrite_input = true
          /\ Dataset.read_only input_dataset = false
          /\ length (Dataset.paths input_dataset) <> 1%nat)
  /\ (forall e,
        auto_output_dataset project input_dataset workflow overwrite_input
        = Raise e ->
        e = NotImplementedError \/ e = ValueError None).
Proof.
  unfold auto_output_dataset.
  destruct overwrite_input, (Dataset.read_only input_dataset); simpl;
    try (repeat split; try tauto; try discriminate;
         try (intros (H1 & H2 & _); discriminate);
         intros e H; inversion H; auto).
  destruct (Nat.eqb_spec (length (Dataset.paths input_dataset)) 1)
    as [E | E]; simpl.
  - repeat split; try discriminate.
    + intros [H | H]; discriminate.
    + intros (_ & _ & H). contradiction.
  - repeat split; try discriminate; try assumption.
    + intros [H | H]; discriminate.
    + intros e H; inversion H; auto.
Qed.

(** X3. When [auto_output_dataset] returns a dataset and the types are
    compatible, [validate_workflow_compatibility] succeeds both without
    an output dataset and with the returned one, on the same single
    path: the first call returns the path, the second the list that
    holds it. *)
Theorem auto_output_then_validate {Project : Type} (project : Project)
    input_dataset workflow (overwrite_input : bool) (out : Dataset.t) :
  type_compatible workflow input_dataset ->
  auto_output_dataset project input_dataset workflow overwrite_input
  = Return out ->
  exists p,
    Dataset.paths input_dataset = [p]
    /\ validate_workflow_compatibility input_dataset workflow None
       = Return (PyStr p)
    /\ validate_workflow_compatibility input_dataset workflow (Some out)
       = Return (PyList [p]).
Proof.
  intros Hc Hauto. revert Hauto. unfold auto_output_dataset.
  destruct overwrite_input; simpl; [| discriminate].
  destruct (Dataset.read_only input_dataset) eqn:Hro; simpl;
    [discriminate |].
  destruct (Nat.eqb_spec (length (Dataset.paths input_dataset)) 1)
    as [E | E]; simpl; [| discriminate].
  intros H. inversion H; subst out; clear H.
  destruct (length_one_inv _ E) as [p Hp]. exists p.
  split; [exact Hp |]. unfold validate_workflow_compatibility.
  rewrite (type_guard_compatible _ _ Hc), Hro, Hp. split; reflexivity.
Qed.

Lemma auto_output_then_validate_witness :
  type_compatible zarr_workflow zarr_dataset
  /\ auto_output_dataset tt zarr_dataset zarr_workflow true
     = Return zarr_dataset
  /\ exists p,
       Dataset.paths zarr_dataset = [p]
       /\ validate_workflow_compatibility zarr_dataset zarr_workflow None
          = Return (PyStr p)
       /\ validate_workflow_compatibility zarr_dataset zarr_workflow
            (Some zarr_dataset)
          = Return (PyList [p]).
Proof.
  split; [right; reflexivity |]. split; [reflexivity |].
  apply (auto_output_then_validate tt zarr_dataset zarr_workflow true
           zarr_dataset); [right; reflexivity | reflexivity].
Defined.

(** X4. With compatible types, no output dataset and a writable input
    dataset whose paths are not exactly one (none, or several),
    [validate_workflow_compatibility] raises the [ValueError] of the
    input branch, of kind [AmbiguousOutputPath]. *)
Theorem validate_input_paths_ambiguous input_dataset workflow :
  type_compatible workflow input_dataset ->
  Dataset.read_only input_dataset = false ->
  length (Dataset.paths input_dataset) <> 1%nat ->
  validate_workflow_compatibility input_dataset workflow None
  = Raise (ValueError (Some
      "Cannot determine output path: multiple input paths to overwrite"))
  /\ fails_with
       (validate_workflow_compatibility input_dataset workflow None)
       AmbiguousOutputPath.
Proof.
  intros Hc Hro Hlen.
  assert (validate_workflow_compatibility input_dataset workflow None
          = Raise (ValueError (Some
      "Cannot determine output path: multiple input paths to overwrite")))
    as E.
  { unfold validate_workflow_compatibility.
    rewrite (type_guard_compatible _ _ Hc), Hro.
    apply Nat.eqb_neq in Hlen. rewrite Hlen. reflexivity. }
  rewrite E. split; [reflexivity |]. apply fails_with_Raise. reflexivity.
Qed.

Lemma validate_input_paths_ambiguous_witness :
  type_compatible any_workflow empty_dataset
  /\ Dataset.read_only empty_dataset = false
  /\ length (Dataset.paths empty_dataset) <> 1%nat
  /\ fails_with
       (validate_workflow_compatibility empty_dataset any_workflow None)
       AmbiguousOutputPath.
Proof.
  split; [left; reflexivity |]. split; [reflexivity |].
  split; [discriminate |].
  apply (validate_input_paths_ambiguous empty_dataset any_workflow);
    [left; reflexivity | reflexivity | discriminate].
Defined.

(** X5. Whenever [validate_workflow_compatibility] returns, the types
    are compatible and the value is either the only path of a writable
    input dataset, as a string, when no output dataset was given, or
    the one-element list of paths of the output dataset given. *)
Theorem validate_return_inv input_dataset workflow output_dataset
    (v : pyval) :
  validate_workflow_compatibility input_dataset workflow output_dataset
  = Return v ->
  type_compatible workflow input_dataset
  /\ ((output_dataset = None
       /\ Dataset.read_only input_dataset = false
       /\ exists p, Dataset.paths input_dataset = [p] /\ v = PyStr p)
      \/ (exists out p,
            output_dataset = Some out
            /\ Dataset.paths out = [p] /\ v = PyList [p])).
Proof.
  unfold validate_workflow_compatibility.
  destruct (negb (String.eqb (Task.input_type workflow) "Any")
            && negb (String.eqb (Task.input_type workflow)
                                (Dataset.type input_dataset))) eqn:Hg;
    [discriminate |].
  apply type_guard_false_compatible in Hg.
  destruct output_dataset as [out |].
  - destruct (Nat.eqb_spec (length (Dataset.paths out)) 1) as [E | E];
      simpl; [| discriminate].
    intros H. injection H as H. subst v.
    destruct (length_one_inv _ E) as [p Hp].
    split; [exact Hg |]. right. exists out, p. rewrite Hp. auto.
  - destruct (Dataset.read_only input_dataset); [discriminate |].
    destruct (Nat.eqb_spec (length (Dataset.paths input_dataset)) 1)
      as [E | E]; simpl; [| discriminate].
    intros H. injection H as H. subst v.
    destruct (length_one_inv _ E) as [p Hp].
    split; [exact Hg |]. left. rewrite Hp. eauto.
Qed.

Lemma validate_return_inv_witness :
  validate_workflow_compatibility zarr_dataset any_workflow None
  = Return (PyStr "/data/a")
  /\ type_compatible any_workflow zarr_dataset.
Proof.
  split; [reflexivity |].
  apply (validate_return_inv zarr_dataset any_workflow None
           (PyStr "/data/a")). reflexivity.
Defined.

(** X6. [validate_workflow_compatibility] fails with a type mismatch
    exactly when the workflow's input type is neither "Any" nor the
    input dataset's type. *)
Theorem validate_type_mismatch_iff input_dataset workflow output_dataset :
  fails_with
    (validate_workflow_compatibility input_dataset workflow output_dataset)
    TypeMismatch
  <-> Task.input_type workflow <> "Any"
      /\ Task.input_type workflow <> Dataset.type input_dataset.
Proof.
  split.
  - intros (e & He & Hk). revert He.
    unfold validate_workflow_compatibility.
    destruct (String.eqb_spec (Task.input_type workflow) "Any") as [E | E];
      destruct (String.eqb_spec (Task.input_type workflow)
                  (Dataset.type input_dataset)) as [E' | E']; simpl;
      try (intros _; split; assumption);
      (destruct output_dataset as [out |];
       [ destruct (negb _)
       | destruct (Dataset.read_only input_dataset);
         [| destruct (negb _)] ];
       intros He; inversion He; subst e; discriminate Hk).
  - intros [H1 H2]. rewrite (validate_mismatch _ _ _ H1 H2).
    apply fails_with_Raise. reflexivity.
Qed.

(** X7. The only exceptions [validate_workflow_compatibility] raises
    are its [TypeError], with the message built from the two types and
    the two names, and its three [ValueError]s, each with its own
    message. *)
Theorem validate_raises_only input_dataset workflow output_dataset
    (e : exn) :
  validate_workflow_compatibility input_dataset workflow output_dataset
  = Raise e ->
  e = TypeError
        ("Incompatible types `" +:+ Task.input_type workflow
         +:+ "` of workflow `" +:+ Task.name workflow
         +:+ "` and `" +:+ Dataset.type input_dataset
         +:+ "` of dataset `" +:+ Dataset.name input_dataset +:+ "`")
  \/ e = ValueError (Some "Input dataset is read-only")
  \/ e = ValueError (Some
           "Cannot determine output path: multiple input paths to overwrite")
  \/ e = ValueError (Some
           "Cannot determine output path: Multiple paths in dataset.").
Proof.
  unfold validate_workflow_compatibility.
  destruct (negb _ && negb _).
  - intros H. injection H as H. subst e. left. reflexivity.
  - destruct output_dataset as [out |].
    + destruct (negb _); [| discriminate].
      intros H. injection H as H. subst e. right. right. right. reflexivity.
    + destruct (Dataset.read_only input_dataset).
      * intros H. injection H as H. subst e. right. left. reflexivity.
      * destruct (negb _); [| discriminate].
        intros H. injection H as H. subst e. right. right. left.
        reflexivity.
Qed.

Lemma validate_raises_only_witness :
  validate_workflow_compatibility png_read_only_dataset any_workflow None
  = Raise (ValueError (Some "Input dataset is read-only"))
  /\ (ValueError (Some "Input dataset is read-only")
      = TypeError
          ("Incompatible types `" +:+ Task.input_type any_workflow
           +:+ "` of workflow `" +:+ Task.name any_workflow
           +:+ "` and `" +:+ Dataset.type png_read_only_dataset
           +:+ "` of dataset `" +:+ Dataset.name png_read_only_dataset
           +:+ "`")
      \/ ValueError (Some "Input dataset is read-only")
         = ValueError (Some "Input dataset is read-only")
      \/ ValueError (Some "Input dataset is read-only")
         = ValueError (Some
             "Cannot determine output path: multiple input paths to overwrite")
      \/ ValueError (Some "Input dataset is read-only")
         = ValueError (Some
             "Cannot determine output path: Multiple paths in dataset.")).
Proof.
  split; [reflexivity |].
  apply (validate_raises_only png_read_only_dataset any_workflow None).
  reflexivity.
Defined.

(** X8. When an output dataset is given and the types are compatible,
    the result depends on the paths of the output dataset alone: the
    read-only flag and the paths of the input dataset are not consulted,
    and neither are the read-only flag, the type and the name of the
    output dataset, so a read-only output dataset is accepted. *)
Theorem validate_output_only_paths
    input_dataset input_dataset' workflow (out out' : Dataset.t) :
  type_compatible workflow input_dataset ->
  type_compatible workflow input_dataset' ->
  Dataset.paths out = Dataset.paths out' ->
  validate_workflow_compatibility input_dataset workflow (Some out)
  = validate_workflow_compatibility input_dataset' workflow (Some out').
Proof.
  intros Hc Hc' Hp. unfold validate_workflow_compatibility.
  rewrite (type_guard_compatible _ _ Hc), (type_guard_compatible _ _ Hc').
  rewrite Hp. reflexivity.
Qed.

Lemma validate_output_only_paths_witness :
  type_compatible any_workflow zarr_dataset
  /\ type_compatible any_workflow png_read_only_dataset
  /\ Dataset.paths out_dataset = Dataset.paths out_read_only
  /\ validate_workflow_compatibility png_read_only_dataset any_workflow
       (Some out_read_only)
     = Return (PyList ["/out/a"]).
Proof.
  split; [left; reflexivity |]. split; [left; reflexivity |].
  split; [reflexivity |].
  rewrite <- (validate_output_only_paths zarr_dataset png_read_only_dataset
                any_workflow out_dataset out_read_only);
    [reflexivity | left; reflexivity | left; reflexivity | reflexivity].
Defined.

End ResolverMore.


(** * Further properties of the job logger *)

Section JobLoggerMore.

Implicit Types (st : State) (logger r : LoggerRef) (h : nat).



(** X10. When the log file opens at its absolute path, in a state whose
    handler references are allocated and whose registry is linked,
    [set_job_logger] returns the logger of that name with one handler
    appended to the handlers it had: a new object, an open file handler
    in append mode on the absolute path, with the formatter given, whose
    stream is a new file object on that path, open and with nothing
    pending.  The handler objects and file objects that existed, the
    handler lists of the other loggers and the level of every logger
    are as they were. *)
Theorem set_job_logger_appends_handler st logger_name path lvl fmt :
  handlers_allocated st -> registry_linked st ->
  posixpath.abspath (cwd st) path ∉ unopenable st ->
  exists st' h sid,
    set_job_logger logger_name path lvl fmt st
    = (st', Return (logger_ref st logger_name))
    /\ handlers_of st' (logger_ref st logger_name)
       = handlers_of st (logger_ref st logger_name) ++ [h]
    /\ heap st !! h = None
    /\ heap st' !! h
       = Some (MkHandler true (posixpath.abspath (cwd st) path) "a" fmt
                 (Some sid) false)
    /\ streams st !! sid = None
    /\ streams st' !! sid
       = Some (MkStream (posixpath.abspath (cwd st) path) false [])
    /\ (forall h', h' <> h -> heap st' !! h' = heap st !! h')
    /\ (forall sid', sid' <> sid -> streams st' !! sid' = streams st !! sid')
    /\ (forall r, r <> logger_ref st logger_name ->
                  handlers_of st' r = handlers_of st r)
    /\ (forall r, from_option level NOTSET (lookup_logger st' r)
                  = from_option level NOTSET (lookup_logger st r)).
Proof.
  intros Hwf _ Hp.
  exists (acquired logger_name path lvl fmt st), (fresh (dom (heap st))),
    (fresh (dom (streams st))).
  split; [apply set_job_logger_run; exact Hp |].
  split; [apply acquired_handlers_of; exact Hwf |].
  split; [apply fresh_heap_None |].
  split; [rewrite acquired_heap; apply lookup_insert_eq |].
  split; [apply fresh_streams_None |].
  split; [rewrite acquired_streams; apply lookup_insert_eq |].
  split; [| split; [| split]].
  - intros h' Hne. rewrite acquired_heap. apply lookup_insert_ne. congruence.
  - intros sid' Hne. rewrite acquired_streams. apply lookup_insert_ne.
    congruence.
  - intros r Hne. apply acquired_handlers_of_ne. exact Hne.
  - intros r. apply acquired_level_of.
Qed.

Lemma registry_linked_job_state : registry_linked job_state.
Proof. vm_compute. reflexivity. Qed.

Lemma openable_job_state :
  posixpath.abspath (cwd job_state) "job-42.log" ∉ unopenable job_state.
Proof. intros Hin. vm_compute in Hin. discriminate Hin. Qed.

Lemma set_job_logger_appends_handler_witness :
  handlers_allocated job_state
  /\ registry_linked job_state
  /\ (posixpath.abspath (cwd job_state) "job-42.log"
      ∉ unopenable job_state)
  /\ exists st' h sid,
       set_job_logger "job-42" "job-42.log" DEBUG None job_state
       = (st', Return (logger_ref job_state "job-42"))
       /\ handlers_of st' (logger_ref job_state "job-42")
          = handlers_of job_state (logger_ref job_state "job-42") ++ [h]
       /\ (baseFilename <$> heap st' !! h) = Some "/job-42.log"
       /\ (s_path <$> streams st' !! sid) = Some "/job-42.log".
Proof.
  pose proof handlers_allocated_job_state as Hwf.
  pose proof registry_linked_job_state as Hreg.
  pose proof openable_job_state as Hp.
  split; [exact Hwf |]. split; [exact Hreg |]. split; [exact Hp |].
  destruct (set_job_logger_appends_handler job_state "job-42"
              "job-42.log" DEBUG None Hwf Hreg Hp)
    as (st' & h & sid & Hrun & Hlist & _ & Hnew & _ & Hstream & _).
  exists st', h, sid. split; [exact Hrun |]. split; [exact Hlist |].
  rewrite Hnew, Hstream. split; reflexivity.
Defined.

(** X11. In a state whose registry is linked, when the log file opens
    at its absolute path, [set_job_logger] changes the content of no
    file that exists, the log file included, and the log file exists
    afterwards at its absolute path: opening in append mode truncates
    nothing. *)
Theorem set_job_logger_keeps_content st logger_name path lvl fmt :
  registry_linked st ->
  posixpath.abspath (cwd st) path ∉ unopenable st ->
  (forall p content,
     files st !! p = Some content ->
     files (fst (set_job_logger logger_name path lvl fmt st)) !! p
     = Some content)
  /\ is_Some (files (fst (set_job_logger logger_name path lvl fmt st))
               !! posixpath.abspath (cwd st) path).
Proof.
  intros _ Hp. rewrite set_job_logger_run by exact Hp. simpl.
  rewrite acquired_files. unfold touch.
  destruct (files st !! posixpath.abspath (cwd st) path)
    as [content0 |] eqn:Hc.
  - split; [intros p content H; exact H | rewrite Hc; eauto].
  - split; [| rewrite lookup_insert_eq; eauto].
    intros p content H. rewrite lookup_insert_ne; [exact H |].
    intros <-. rewrite Hc in H. discriminate.
Qed.

Lemma set_job_logger_keeps_content_witness :
  registry_linked logged_state
  /\ (posixpath.abspath (cwd logged_state) "tmp/./job-42.log"
      ∉ unopenable logged_state)
  /\ files logged_state !! "/tmp/job-42.log" = Some ["first record"]
  /\ files (fst (set_job_logger "job-42" "tmp/./job-42.log" INFO None
                  logged_state)) !! "/tmp/job-42.log"
     = Some ["first record"].
Proof.
  assert (registry_linked logged_state) as Hreg by (vm_compute; reflexivity).
  assert (posixpath.abspath (cwd logged_state) "tmp/./job-42.log"
          ∉ unopenable logged_state) as Hp
    by (intros Hin; vm_compute in Hin; discriminate Hin).
  assert (files logged_state !! "/tmp/job-42.log" = Some ["first record"])
    as Hc by reflexivity.
  split; [exact Hreg |]. split; [exact Hp |]. split; [exact Hc |].
  destruct (set_job_logger_keeps_content logged_state "job-42"
              "tmp/./job-42.log" INFO None Hreg Hp) as [Hsame _].
  apply Hsame. exact Hc.
Defined.

(** X12. In a state whose registry is linked, [set_job_logger] changes
    the [level] attribute of no logger, whether the file opens or not:
    every logger has after the call the level it had before, and the
    logger the call creates has [NOTSET], whatever the [level]
    argument. *)
Theorem set_job_logger_keeps_levels st logger_name path lvl fmt r :
  registry_linked st ->
  from_option level NOTSET
    (lookup_logger (fst (set_job_logger logger_name path lvl fmt st)) r)
  = from_option level NOTSET (lookup_logger st r).
Proof.
  intros _.
  destruct (decide (posixpath.abspath (cwd st) path ∈ unopenable st))
    as [Hp | Hp].
  - rewrite set_job_logger_unopenable by exact Hp.
    apply refused_level_of.
  - rewrite set_job_logger_run by exact Hp. apply acquired_level_of.
Qed.

Lemma set_job_logger_keeps_levels_witness :
  registry_linked (initial ∅ ∅)
  /\ lookup_logger (initial ∅ ∅) (NamedLogger "job-42") = None
  /\ from_option level NOTSET
       (lookup_logger
          (fst (set_job_logger "job-42" "/tmp/job-42.log" ERROR None
                  (initial ∅ ∅)))
          (NamedLogger "job-42"))
     = NOTSET.
Proof.
  assert (registry_linked (initial ∅ ∅)) as Hreg
    by (vm_compute; reflexivity).
  split; [exact Hreg |]. split; [reflexivity |].
  apply (set_job_logger_keeps_levels (initial ∅ ∅) "job-42"
           "/tmp/job-42.log" ERROR None (NamedLogger "job-42") Hreg).
Defined.

(** X13. [close_job_logger], whether it returns or raises, leaves alone
    every handler object that is not a file handler, every handler
    object that is not attached to the logger, and every file object
    that is the stream of no file handler attached to the logger. *)
Theorem close_job_logger_frame st logger :
  (forall h,
     h ∉ handlers_of st logger \/ isinstance_FileHandler st h = false ->
     heap (fst (close_job_logger logger st)) !! h = heap st !! h)
  /\ (forall sid,
        (forall h, h ∈ handlers_of st logger ->
                   stream_of st h <> Some sid) ->
        streams (fst (close_job_logger logger st)) !! sid
        = streams st !! sid).
Proof.
  rewrite close_job_logger_run. split.
  - intros h Hh. apply close_all_frame. exact Hh.
  - intros sid Hsid. apply close_all_streams_frame. exact Hsid.
Qed.

Lemma close_job_logger_frame_witness :
  (0 ∉ handlers_of console_state RootLogger
   \/ isinstance_FileHandler console_state 0 = false)
  /\ heap (fst (close_job_logger RootLogger console_state)) !! 0
     = heap console_state !! 0.
Proof.
  split; [right; reflexivity |].
  destruct (close_job_logger_frame console_state RootLogger) as [Hheap _].
  apply Hheap. right. reflexivity.
Defined.



(** X16. On a logger none of whose handlers is a file handler, and so
    on one that has no handler, [close_job_logger] returns and changes
    nothing at all. *)
Theorem close_job_logger_no_file_handler st logger :
  (forall h, h ∈ handlers_of st logger ->
             isinstance_FileHandler st h = false) ->
  close_job_logger logger st = (st, Return tt).
Proof.
  intros Hnone. rewrite close_job_logger_run. apply close_all_settled.
  intros h Hin hd Hh Hf. specialize (Hnone h Hin).
  unfold isinstance_FileHandler in Hnone. rewrite Hh in Hnone.
  simpl in Hnone. congruence.
Qed.

Lemma close_job_logger_no_file_handler_witness :
  (forall h, h ∈ handlers_of console_state RootLogger ->
             isinstance_FileHandler console_state h = false)
  /\ close_job_logger RootLogger console_state
     = (console_state, Return tt).
Proof.
  assert (forall h, h ∈ handlers_of console_state RootLogger ->
                    isinstance_FileHandler console_state h = false) as Hnone.
  { intros h Hin. change (h ∈ [0]) in Hin.
    apply list_elem_of_singleton in Hin. subst h. reflexivity. }
  split; [exact Hnone |].
  apply (close_job_logger_no_file_handler console_state RootLogger Hnone).
Defined.

(** *** Acquiring and releasing in sequence *)














(** X17. Acquiring twice under one name, without releasing: when both
    files open, every handler reference is allocated and the registry
    is linked, the logger ends with two more handlers than it had, two
    distinct objects, each an open file handler on its own absolute
    path with a file object of its own; the second call does not
    replace the handler of the first. *)
Theorem set_job_logger_twice st logger_name path1 path2 lvl1 lvl2 fmt1 fmt2 :
  handlers_allocated st -> registry_linked st ->
  posixpath.abspath (cwd st) path1 ∉ unopenable st ->
  posixpath.abspath (cwd st) path2 ∉ unopenable st ->
  exists st2 h1 h2 sid1 sid2,
    (set_job_logger logger_name path1 lvl1 fmt1 ;;
     set_job_logger logger_name path2 lvl2 fmt2) st
    = (st2, Return (logger_ref st logger_name))
    /\ h1 <> h2 /\ sid1 <> sid2
    /\ handlers_of st2 (logger_ref st logger_name)
       = handlers_of st (logger_ref st logger_name) ++ [h1; h2]
    /\ heap st2 !! h1
       = Some (job_handler (posixpath.abspath (cwd st) path1) fmt1 sid1)
    /\ heap st2 !! h2
       = Some (job_handler (posixpath.abspath (cwd st) path2) fmt2 sid2)
    /\ streams st2 !! sid1
       = Some (MkStream (posixpath.abspath (cwd st) path1) false [])
    /\ streams st2 !! sid2
       = Some (MkStream (posixpath.abspath (cwd st) path2) false []).
Proof.
  intros Hwf _ Hp1 Hp2.
  set (r := logger_ref st logger_name).
  set (st1 := acquired logger_name path1 lvl1 fmt1 st).
  assert (handlers_allocated st1) as Hwf1
    by (apply handlers_allocated_acquired; exact Hwf).
  destruct (acquired_env logger_name path1 lvl1 fmt1 st)
    as (Hu & _ & Hc & Hn). fold st1 in Hu, Hc, Hn.
  assert (logger_ref st1 logger_name = r) as Hr
    by (unfold logger_ref, r; rewrite Hn; reflexivity).
  assert (heap st1 !! fresh (dom (heap st))
          = Some (job_handler (posixpath.abspath (cwd st) path1) fmt1
                    (fresh (dom (streams st)))))
    as Hh1 by (unfold st1; rewrite acquired_heap; apply lookup_insert_eq).
  assert (streams st1 !! fresh (dom (streams st))
          = Some (MkStream (posixpath.abspath (cwd st) path1) false []))
    as Hs1 by (unfold st1; rewrite acquired_streams; apply lookup_insert_eq).
  assert (fresh (dom (heap st1)) <> fresh (dom (heap st))) as Hh.
  { intros E. pose proof (fresh_heap_None st1) as Hnone.
    rewrite E in Hnone. congruence. }
  assert (fresh (dom (streams st1)) <> fresh (dom (streams st))) as Hs.
  { intros E. pose proof (fresh_streams_None st1) as Hnone.
    rewrite E in Hnone. congruence. }
  exists (acquired logger_name path2 lvl2 fmt2 st1), (fresh (dom (heap st))),
    (fresh (dom (heap st1))), (fresh (dom (streams st))),
    (fresh (dom (streams st1))).
  split; [| split; [| split; [| split; [| split; [| split; [| split]]]]]].
  - unfold bind. rewrite set_job_logger_run by exact Hp1.
    fold st1. rewrite set_job_logger_run by (rewrite Hc, Hu; exact Hp2).
    rewrite Hr. reflexivity.
  - congruence.
  - congruence.
  - rewrite <- Hr, acquired_handlers_of by exact Hwf1.
    rewrite Hr. unfold st1, r. rewrite acquired_handlers_of by exact Hwf.
    rewrite <- app_assoc. reflexivity.
  - rewrite acquired_heap, lookup_insert_ne by exact Hh. exact Hh1.
  - rewrite acquired_heap, Hc. apply lookup_insert_eq.
  - rewrite acquired_streams, lookup_insert_ne by exact Hs. exact Hs1.
  - rewrite acquired_streams, Hc. apply lookup_insert_eq.
Qed.

Lemma set_job_logger_twice_witness :
  handlers_allocated (initial ∅ ∅)
  /\ registry_linked (initial ∅ ∅)
  /\ (posixpath.abspath (cwd (initial ∅ ∅)) "/tmp/job-42.log"
      ∉ unopenable (initial ∅ ∅))
  /\ exists st2 h1 h2 (sid1 sid2 : nat),
       (set_job_logger "job-42" "/tmp/job-42.log" INFO None ;;
        set_job_logger "job-42" "/tmp/job-42.log" INFO None) (initial ∅ ∅)
       = (st2, Return (logger_ref (initial ∅ ∅) "job-42"))
       /\ h1 <> h2 /\ sid1 <> sid2
       /\ handlers_of st2 (logger_ref (initial ∅ ∅) "job-42") = [h1; h2].
Proof.
  assert (handlers_allocated (initial ∅ ∅)) as Hwf
    by apply handlers_allocated_initial.
  assert (registry_linked (initial ∅ ∅)) as Hreg
    by (vm_compute; reflexivity).
  assert (posixpath.abspath (cwd (initial ∅ ∅)) "/tmp/job-42.log"
          ∉ unopenable (initial ∅ ∅)) as Hp
    by (intros Hin; vm_compute in Hin; discriminate Hin).
  split; [exact Hwf |]. split; [exact Hreg |]. split; [exact Hp |].
  destruct (set_job_logger_twice (initial ∅ ∅) "job-42" "/tmp/job-42.log"
              "/tmp/job-42.log" INFO INFO None None Hwf Hreg Hp Hp)
    as (st2 & h1 & h2 & sid1 & sid2 & Hrun & Hne & Hsne & Hlist & _).
  exists st2, h1, h2, sid1, sid2. split; [exact Hrun |].
  split; [exact Hne |]. split; [exact Hsne |]. exact Hlist.
Defined.

(** *** A close that raises *)

Lemma streams_private_prefix st (l1 l2 : list nat) :
  streams_private st (l1 ++ l2) -> streams_private st l1.
Proof.
  intros Hpriv x y sid Hx Hy. apply Hpriv; apply elem_of_app; left;
    assumption.
Qed.





End JobLoggerMore.
